(** * AIND-Recognizer: model selectors and recognizer

    A shallow embedding of [my_model_selectors.py] and [my_recognizer.py].

    Python floats (and numpy's float64) are IEEE-754 binary64 numbers: they
    are modelled by Rocq's primitive floats, whose comparison and arithmetic
    are the hardware's.  Python ints are [Z].  A [dict] is an association
    list in insertion order (the iteration order of [dict.items()]).

    The libraries the code calls (hmmlearn's [GaussianHMM], numpy's [log]
    and [mean], scikit-learn's [KFold]) are collaborators: the development
    is parameterised by them through the class [Collaborators], and each of
    their calls may raise.  A selector object is a record; a method is a
    function from the interpreter state (the object and the trace of
    observable events) to a result and a new state.  An exception leaves
    the state as the raising statement found it.  The calls to
    [warnings.filterwarnings] only silence warnings and are left out. *)

From Stdlib Require Import ZArith List Sorted String Bool Lia Floats.
Import ListNotations.

Local Open Scope Z_scope.

(** ** Python values *)

(** A frame is one row of features; an observation matrix is a list of
    frames, as [np.array(X)] of a nested list or the plain list that
    [combine_sequences] returns. *)
Definition frame := list float.
Definition matrix := list frame.

(** [dict.items()] in insertion order. *)
Definition dict (V : Type) := list (string * V).

Definition keys {V} (d : dict V) : list string := map fst d.

Fixpoint dict_get {V} (k : string) (d : dict V) : option V :=
  match d with
  | [] => None
  | (k', v) :: d' => if String.eqb k k' then Some v else dict_get k d'
  end.

(** [d[k] = v]: an existing key keeps its position, a new key goes last. *)
Fixpoint dict_set {V} (k : string) (v : V) (d : dict V) : dict V :=
  match d with
  | [] => [(k, v)]
  | (k', v') :: d' =>
      if String.eqb k k' then (k', v) :: d' else (k', v') :: dict_set k v d'
  end.

(** [range(a, b + 1)] over Python ints. *)
Definition range_incl (a b : Z) : list Z :=
  map (fun i => a + Z.of_nat i) (seq 0 (Z.to_nat (b + 1 - a))).

(** Conversion of a Python int to a float, rounding to nearest even. *)
Definition float_of_Z (z : Z) : float :=
  SF2Prim (binary_normalize prec emax z 0 false).

(** [a > b] on floats is [b < a]; both are false when either side is nan. *)
Definition float_gt (a b : float) : bool := PrimFloat.ltb b a.
Definition float_lt (a b : float) : bool := PrimFloat.ltb a b.

(** ** Exceptions and results *)

Inductive exn : Type :=
| AttributeError      (* [None.score] *)
| UnboundLocalError   (* [best_n] read before assignment *)
| IndexError          (* list index out of range, [shape[1]] of a 1-D array *)
| ValueError          (* [KFold.split] with too few samples *)
| LibraryError (msg : string). (* raised inside a collaborator *)

Inductive result (A : Type) : Type :=
| Ok (a : A)
| Raise (e : exn).
Arguments Ok {A} a.
Arguments Raise {A} e.

(** ** Collaborators *)

Class Collaborators : Type := {
  (** a fitted [GaussianHMM] *)
  Model : Type;
  (** [GaussianHMM(n_components=n, covariance_type="diag", n_iter=1000,
      random_state=seed, verbose=False).fit(X, lengths)] *)
  hmm_fit : Z -> Z -> matrix -> list nat -> result Model;
  (** [model.score(X, lengths)] *)
  hmm_score : Model -> matrix -> list nat -> result float;
  (** [np.log(n)] of a Python int *)
  np_log : Z -> float;
  (** [np.mean(scores)] of a list of floats (nan on the empty list) *)
  np_mean : list float -> float;
  (** [KFold().split(sequences)]: the (train, test) index lists of each
      fold, from the number of samples; it raises before the first fold
      when there are fewer samples than splits. *)
  kfold_split : nat -> result (list (list nat * list nat))
}.

(** ** The selector object and the interpreter state *)

Record Selector : Type := mkSelector {
  words : dict (list matrix);
  hwords : dict (matrix * list nat);
  sequences : list matrix;
  X : matrix;
  lengths : list nat;
  this_word : string;
  n_constant : Z;
  min_n_components : Z;
  max_n_components : Z;
  random_state : Z;
  verbose : bool
}.

(** What a run does that an observer can see: the calls to the fitting
    service and the lines printed under [verbose]. *)
Inductive event : Type :=
| FitCall (n seed : Z) (trainX : matrix) (trainLengths : list nat)
| PrintCreated (word : string) (n : Z)
| PrintFailure (word : string) (n : Z).

Record State : Type := mkState {
  self : Selector;
  trace : list event
}.

Definition M (A : Type) : Type := State -> result A * State.

Definition ret {A} (a : A) : M A := fun st => (Ok a, st).

Definition raise {A} (e : exn) : M A := fun st => (Raise e, st).

Definition bind {A B} (m : M A) (f : A -> M B) : M B :=
  fun st =>
    match m st with
    | (Ok a, st') => f a st'
    | (Raise e, st') => (Raise e, st')
    end.

(** [try: body except: handler] with a bare [except]. *)
Definition try_except {A} (body handler : M A) : M A :=
  fun st =>
    match body st with
    | (Ok a, st') => (Ok a, st')
    | (Raise _, st') => handler st'
    end.

Definition get_self : M Selector := fun st => (Ok (self st), st).

Definition emit (e : event) : M unit :=
  fun st => (Ok tt, mkState (self st) (trace st ++ [e])).

(** [self.X, self.lengths = X', lengths'] *)
Definition set_X_lengths (X' : matrix) (lengths' : list nat) : M unit :=
  fun st =>
    let s := self st in
    (Ok tt,
     mkState (mkSelector (words s) (hwords s) (sequences s) X' lengths'
                (this_word s) (n_constant s) (min_n_components s)
                (max_n_components s) (random_state s) (verbose s))
             (trace st)).

Definition lift {A} (r : result A) : M A := fun st => (r, st).

Declare Scope py_scope.
Delimit Scope py_scope with py.
Notation "x <- m ;; k" := (bind m (fun x => k))
  (at level 61, m at next level, right associativity) : py_scope.
Notation "' pat <- m ;; k" :=
  (bind m (fun x => match x with pat => k end))
  (at level 61, pat pattern, m at next level, right associativity) : py_scope.
Notation "m ;;; k" := (bind m (fun _ => k))
  (at level 61, right associativity) : py_scope.
Local Open Scope py_scope.

Definition when (b : bool) (m : M unit) : M unit := if b then m else ret tt.

(** [ModelSelector.__init__] *)
Definition init (all_word_sequences : dict (list matrix))
    (all_word_Xlengths : dict (matrix * list nat)) (word : string)
    (n_const min_n max_n seed : Z) (verb : bool) : option Selector :=
  match dict_get word all_word_sequences, dict_get word all_word_Xlengths with
  | Some seqs, Some (x, ls) =>
      Some (mkSelector all_word_sequences all_word_Xlengths seqs x ls word
              n_const min_n max_n seed verb)
  | _, _ => None
  end.

(** A local variable that may not have been assigned yet. *)
Definition read_local {A} (v : option A) : M A :=
  match v with
  | Some a => ret a
  | None => raise UnboundLocalError
  end.

(** [self.X.shape[1]].  [X] is [np.array] of a nested list: two-dimensional
    when the list has a row, one-dimensional (so [shape[1]] raises) when it
    is empty. *)
Definition shape1 (x : matrix) : result Z :=
  match x with
  | [] => Raise IndexError
  | row :: _ => Ok (Z.of_nat (List.length row))
  end.

(** Modelled from the spec: [asl_utils.combine_sequences], which is not part
    of the sources at hand.  It builds the concatenated index of the
    sequences picked by an index list: their frames flattened in order, and
    the length of each picked sequence. *)
Fixpoint pick_sequences (split_index_list : list nat) (seqs : list matrix)
  : result (list matrix) :=
  match split_index_list with
  | [] => Ok []
  | idx :: rest =>
      match nth_error seqs idx with
      | None => Raise IndexError
      | Some sq =>
          match pick_sequences rest seqs with
          | Ok fold => Ok (sq :: fold)
          | Raise e => Raise e
          end
      end
  end.

Definition combine_sequences (split_index_list : list nat)
    (seqs : list matrix) : result (matrix * list nat) :=
  match pick_sequences split_index_list seqs with
  | Ok sequences_fold =>
      Ok (List.concat sequences_fold, map (@List.length frame) sequences_fold)
  | Raise e => Raise e
  end.

Section Selectors.

Context {lib : Collaborators}.

(** [model.score(X, lengths)] where [model] may be [None]. *)
Definition score_of (model : option Model) (x : matrix) (ls : list nat)
  : M float :=
  match model with
  | None => raise AttributeError
  | Some m => lift (hmm_score m x ls)
  end.

(** [ModelSelector.base_model] *)
Definition base_model (num_states : Z) : M (option Model) :=
  s <- get_self ;;
  emit (FitCall num_states (random_state s) (X s) (lengths s)) ;;;
  match hmm_fit num_states (random_state s) (X s) (lengths s) with
  | Ok hmm_model =>
      when (verbose s) (emit (PrintCreated (this_word s) num_states)) ;;;
      ret (Some hmm_model)
  | Raise _ =>
      when (verbose s) (emit (PrintFailure (this_word s) num_states)) ;;;
      ret None
  end.

(** [SelectorConstant.select] *)
Definition SelectorConstant_select : M (option Model) :=
  s <- get_self ;;
  let best_num_components := n_constant s in
  base_model best_num_components.

(** The search loop shared by the three adaptive selectors:
<<
    for n_comp in range(...):
        score = self.X_score(n_comp)
        if score (better than) best_score:
            best_score = score
            best_n = n_comp
>>
    [best_n] is unbound until a candidate is accepted. *)
Fixpoint search_loop (better : float -> float -> bool)
    (score_fn : Z -> M float) (candidates : list Z)
    (best_score : float) (best_n : option Z) : M (float * option Z) :=
  match candidates with
  | [] => ret (best_score, best_n)
  | n_comp :: rest =>
      score <- score_fn n_comp ;;
      if better score best_score
      then search_loop better score_fn rest score (Some n_comp)
      else search_loop better score_fn rest best_score best_n
  end.

(** [return self.base_model(self.n_constant)], the handler of each search. *)
Definition fallback : M (option Model) :=
  s <- get_self ;;
  base_model (n_constant s).

(** [SelectorBIC.BIC_score] *)
Definition BIC_score (n_comp : Z) : M float :=
  model <- base_model n_comp ;;
  s <- get_self ;;
  logL <- score_of model (X s) (lengths s) ;;
  n_features <- lift (shape1 (X s)) ;;
  let logN := np_log (Z.of_nat (List.length (X s))) in
  let p := n_comp ^ 2 + 2 * n_comp * n_features - 1 in
  let BIC := ((-2) * logL + float_of_Z p * logN)%float in
  ret BIC.

(** The body of the [try] in [SelectorBIC.select]. *)
Definition SelectorBIC_search : M (option Model) :=
  s <- get_self ;;
  ' (_, best_n) <- search_loop float_lt BIC_score
        (range_incl (min_n_components s) (max_n_components s))
        infinity None ;;
  n <- read_local best_n ;;
  base_model n.

(** [SelectorBIC.select] *)
Definition SelectorBIC_select : M (option Model) :=
  try_except SelectorBIC_search fallback.

(** The loop of [DIC_score] over [self.hwords.items()]. *)
Fixpoint DIC_loganti (model : option Model) (this : string)
    (items : dict (matrix * list nat)) (loganti : list float)
  : M (list float) :=
  match items with
  | [] => ret loganti
  | (word, (seq, len)) :: rest =>
      if negb (String.eqb word this)
      then
        sc <- score_of model seq len ;;
        DIC_loganti model this rest (loganti ++ [sc])
      else DIC_loganti model this rest loganti
  end.

(** [SelectorDIC.DIC_score] *)
Definition DIC_score (n_comp : Z) : M float :=
  model <- base_model n_comp ;;
  s <- get_self ;;
  logL <- score_of model (X s) (lengths s) ;;
  loganti <- DIC_loganti model (this_word s) (hwords s) [] ;;
  let DIC := (logL - np_mean loganti)%float in
  ret DIC.

(** The body of the [try] in [SelectorDIC.select]. *)
Definition SelectorDIC_search : M (option Model) :=
  s <- get_self ;;
  ' (_, best_n) <- search_loop float_gt DIC_score
        (range_incl (min_n_components s) (max_n_components s))
        neg_infinity None ;;
  n <- read_local best_n ;;
  base_model n.

(** [SelectorDIC.select] *)
Definition SelectorDIC_select : M (option Model) :=
  try_except SelectorDIC_search fallback.

(** The loop of [CV_score] over the folds. *)
Fixpoint CV_folds (n_comp : Z) (folds : list (list nat * list nat))
    (scores : list float) : M (list float) :=
  match folds with
  | [] => ret scores
  | (cv_train_idx, cv_test_idx) :: rest =>
      s <- get_self ;;
      ' (trainX, trainLengths) <-
          lift (combine_sequences cv_train_idx (sequences s)) ;;
      set_X_lengths trainX trainLengths ;;;
      model <- base_model n_comp ;;
      ' (testX, testLengths) <-
          lift (combine_sequences cv_test_idx (sequences s)) ;;
      sc <- score_of model testX testLengths ;;
      CV_folds n_comp rest (scores ++ [sc])
  end.

(** [SelectorCV.CV_score] *)
Definition CV_score (n_comp : Z) : M float :=
  s <- get_self ;;
  folds <- lift (kfold_split (List.length (sequences s))) ;;
  scores <- CV_folds n_comp folds [] ;;
  let CV_score := np_mean scores in
  ret CV_score.

(** The body of the [try] in [SelectorCV.select]. *)
Definition SelectorCV_search : M (option Model) :=
  s <- get_self ;;
  ' (_, best_n) <- search_loop float_gt CV_score
        (range_incl (min_n_components s) (max_n_components s))
        neg_infinity None ;;
  n <- read_local best_n ;;
  base_model n.

(** [SelectorCV.select] *)
Definition SelectorCV_select : M (option Model) :=
  try_except SelectorCV_search fallback.

(** The four strategies. *)
Inductive selector_kind : Type :=
| Constant | BIC | DIC | CV.

(** What [select] runs before any handler: the whole body for
    [SelectorConstant], the body of the [try] for the others. *)
Definition search (k : selector_kind) : M (option Model) :=
  match k with
  | Constant => SelectorConstant_select
  | BIC => SelectorBIC_search
  | DIC => SelectorDIC_search
  | CV => SelectorCV_search
  end.

Definition select (k : selector_kind) : M (option Model) :=
  match k with
  | Constant => SelectorConstant_select
  | BIC => SelectorBIC_select
  | DIC => SelectorDIC_select
  | CV => SelectorCV_select
  end.

(** ** The recognizer *)

(** One cell of a score row: [model.score(X, lengths)] under
    [try ... except: score = float("-inf")]. *)
Definition cell_score (model : Model) (x : matrix) (ls : list nat) : float :=
  match hmm_score model x ls with
  | Ok score => score
  | Raise _ => neg_infinity
  end.

(** The inner loop of [recognize], over [models.items()]. *)
Fixpoint recognize_row (models : dict Model) (x : matrix) (ls : list nat)
    (best_score : float) (probdict : dict float) (best_guess : string)
  : dict float * string :=
  match models with
  | [] => (probdict, best_guess)
  | (trained_word, model) :: rest =>
      let score := cell_score model x ls in
      let probdict := dict_set trained_word score probdict in
      if float_gt score best_score
      then recognize_row rest x ls score probdict trained_word
      else recognize_row rest x ls best_score probdict best_guess
  end.

(** The outer loop of [recognize], over
    [test_set.get_all_Xlengths().items()]. *)
Fixpoint recognize_loop (models : dict Model)
    (items : list (Z * (matrix * list nat)))
    (probabilities : list (dict float)) (guesses : list string)
  : list (dict float) * list string :=
  match items with
  | [] => (probabilities, guesses)
  | (test_word, (x, ls)) :: rest =>
      let '(probdict, best_guess) :=
        recognize_row models x ls neg_infinity [] EmptyString in
      recognize_loop models rest
        (probabilities ++ [probdict]) (guesses ++ [best_guess])
  end.

(** [recognize(models, test_set)]; the test set is given by its
    [get_all_Xlengths()] mapping from item index to [(X, lengths)]. *)
Definition recognize (models : dict Model)
    (test_set : list (Z * (matrix * list nat)))
  : list (dict float) * list string :=
  recognize_loop models test_set [] [].

End Selectors.

(** * Specification vocabulary *)

(** The fitting attempts recorded in a trace. *)
Definition is_fit_call (e : event) : bool :=
  match e with
  | FitCall _ _ _ _ => true
  | _ => false
  end.

Definition fit_calls (tr : list event) : list event := filter is_fit_call tr.

(** The fitting attempt at [n] states on the selector's data. *)
Definition fit_call_at (s : Selector) (n : Z) : event :=
  FitCall n (random_state s) (X s) (lengths s).

(** Two selectors that differ at most in [verbose] and in the [words]
    mapping. *)
Definition same_inputs (s1 s2 : Selector) : Prop :=
  hwords s1 = hwords s2 /\
  sequences s1 = sequences s2 /\
  X s1 = X s2 /\
  lengths s1 = lengths s2 /\
  this_word s1 = this_word s2 /\
  n_constant s1 = n_constant s2 /\
  min_n_components s1 = min_n_components s2 /\
  max_n_components s1 = max_n_components s2 /\
  random_state s1 = random_state s2.

(** Two interpreter states with such selectors and the same fitting
    attempts so far. *)
Definition same_run (st1 st2 : State) : Prop :=
  same_inputs (self st1) (self st2) /\
  fit_calls (trace st1) = fit_calls (trace st2).

(** Two computations agree when, from such states, they give the same
    result and end in such states. *)
Definition agree {A} (m1 m2 : M A) : Prop :=
  forall st1 st2,
    same_run st1 st2 ->
    fst (m1 st1) = fst (m2 st2) /\ same_run (snd (m1 st1)) (snd (m2 st2)).

(** A computation is frame-pure when it leaves the selector object as it
    found it (it may extend the trace) and its result depends on the
    selector object only. *)
Definition frame_pure {A} (m : M A) : Prop :=
  (forall st, self (snd (m st)) = self st) /\
  (forall st1 st2, self st1 = self st2 -> fst (m st1) = fst (m st2)).

(** The selection context as the specification lists it: sequences, [X] with its lengths,
    search bounds, fallback state count and random seed. *)
Definition same_context (s s' : Selector) : Prop :=
  sequences s' = sequences s /\
  X s' = X s /\
  lengths s' = lengths s /\
  min_n_components s' = min_n_components s /\
  max_n_components s' = max_n_components s /\
  n_constant s' = n_constant s /\
  random_state s' = random_state s.

(** Everything of the selector but [X] and [lengths]. *)
Definition same_config (s s' : Selector) : Prop :=
  words s' = words s /\
  hwords s' = hwords s /\
  sequences s' = sequences s /\
  this_word s' = this_word s /\
  n_constant s' = n_constant s /\
  min_n_components s' = min_n_components s /\
  max_n_components s' = max_n_components s /\
  random_state s' = random_state s /\
  verbose s' = verbose s.

Definition keeps_config {A} (m : M A) : Prop :=
  forall st, same_config (self st) (self (snd (m st))).

Section Vocabulary.

Context {lib : Collaborators}.

(** What [base_model] returns: the fitted model, or [None] when the
    fitting service raised. *)
Definition fit_outcome (s : Selector) (n : Z) : option Model :=
  match hmm_fit n (random_state s) (X s) (lengths s) with
  | Ok m => Some m
  | Raise _ => None
  end.

(** What [base_model] adds to the trace. *)
Definition base_model_events (s : Selector) (n : Z) : list event :=
  FitCall n (random_state s) (X s) (lengths s) ::
  (if verbose s
   then [match hmm_fit n (random_state s) (X s) (lengths s) with
         | Ok _ => PrintCreated (this_word s) n
         | Raise _ => PrintFailure (this_word s) n
         end]
   else []).

(** The BIC of the candidate with [n] states, in the criterion's words:
    [-2 * logL + p * log N] with [logL] the log-likelihood of the model
    fitted on the word's data, scored on that same data, [N] the number of
    frames and [p = n^2 + 2 * n * f - 1] for [f] features. *)
Definition BIC_is (s : Selector) (n : Z) (bic : float) : Prop :=
  exists model logL f,
    hmm_fit n (random_state s) (X s) (lengths s) = Ok model /\
    hmm_score model (X s) (lengths s) = Ok logL /\
    shape1 (X s) = Ok f /\
    bic = (-2 * logL +
           float_of_Z (n ^ 2 + 2 * n * f - 1) *
           np_log (Z.of_nat (List.length (X s))))%float.

(** The other words of the vocabulary, in the order of [hwords.items()]. *)
Definition other_words (s : Selector) : dict (matrix * list nat) :=
  filter (fun it => negb (String.eqb (fst it) (this_word s))) (hwords s).

(** [model] scores the concatenated sequences of each listed word. *)
Definition scored_against (model : Model)
    (ws : dict (matrix * list nat)) (scores : list float) : Prop :=
  Forall2 (fun it sc => hmm_score model (fst (snd it)) (snd (snd it)) = Ok sc)
          ws scores.

(** The DIC of the candidate with [n] states, in the criterion's words:
    the log-likelihood of the word under the model fitted on it, minus the
    mean of the log-likelihoods of every other word under that model. *)
Definition DIC_is (s : Selector) (n : Z) (dic : float) : Prop :=
  exists model logL loganti,
    hmm_fit n (random_state s) (X s) (lengths s) = Ok model /\
    hmm_score model (X s) (lengths s) = Ok logL /\
    scored_against model (other_words s) loganti /\
    dic = (logL - np_mean loganti)%float.

(** The candidate with [n] states fails: its fit raises, or the fitted
    model cannot score the word's data. *)
Definition candidate_fails (s : Selector) (n : Z) : Prop :=
  (exists e, hmm_fit n (random_state s) (X s) (lengths s) = Raise e) \/
  (exists model e,
     hmm_fit n (random_state s) (X s) (lengths s) = Ok model /\
     hmm_score model (X s) (lengths s) = Raise e).

(** The candidate with [n] states is usable: it has a BIC, below the
    initial running best. *)
Definition candidate_usable (s : Selector) (n : Z) : Prop :=
  exists bic, BIC_is s n bic /\ PrimFloat.ltb bic infinity = true.

(** Skipping, as a search that drops failed candidates would behave: with
    a usable candidate in the range the search completes, and [select]
    does not reach its handler. *)
Definition BIC_skips_failed_candidates (st : State) : Prop :=
  (exists n,
     min_n_components (self st) <= n <= max_n_components (self st) /\
     candidate_usable (self st) n) ->
  exists r st1, SelectorBIC_search st = (Ok r, st1).

(** The score row of an item, in the words of the data model: each trained
    word with its cell, in the order of the model mapping. *)
Definition score_row (models : dict Model) (x : matrix) (ls : list nat)
  : dict float :=
  map (fun wm => (fst wm, cell_score (snd wm) x ls)) models.

(** The row and the guess that one pass of the inner loop produces. *)
Definition row_of (models : dict Model) (it : Z * (matrix * list nat))
  : dict float :=
  fst (recognize_row models (fst (snd it)) (snd (snd it))
         neg_infinity [] EmptyString).

Definition guess_of (models : dict Model) (it : Z * (matrix * list nat))
  : string :=
  snd (recognize_row models (fst (snd it)) (snd (snd it))
         neg_infinity [] EmptyString).

(** The guess is the arg max of the row: a key of the row whose score no
    cell of the row exceeds. *)
Definition guess_is_argmax (row : dict float) (g : string) : Prop :=
  exists s,
    dict_get g row = Some s /\
    forall w' s', In (w', s') row -> float_gt s' s = false.

Definition guesses_are_argmax (models : dict Model)
    (items : list (Z * (matrix * list nat))) : Prop :=
  forall i row g,
    nth_error (fst (recognize models items)) i = Some row ->
    nth_error (snd (recognize models items)) i = Some g ->
    guess_is_argmax row g.

(** A call to [select] leaves the selection context unchanged. *)
Definition select_preserves_context (k : selector_kind) (st : State) : Prop :=
  same_context (self st) (self (snd (select k st))).

(** The candidate with [n] states fails under DIC: its fit raises, or the
    fitted model cannot score the word's data or the data of one of the
    other words. *)
Definition DIC_candidate_fails (s : Selector) (n : Z) : Prop :=
  (exists e, hmm_fit n (random_state s) (X s) (lengths s) = Raise e) \/
  (exists model,
     hmm_fit n (random_state s) (X s) (lengths s) = Ok model /\
     ((exists e, hmm_score model (X s) (lengths s) = Raise e) \/
      (exists w sq len e,
         In (w, (sq, len)) (other_words s) /\
         hmm_score model sq len = Raise e))).

(** The scores that a pass over the folds collects, as a function of the
    word's sequences and the seed: for each fold, a model fitted on the
    training part scores the held-out part. *)
Fixpoint CV_fold_scores (seqs : list matrix) (seed n : Z)
    (folds : list (list nat * list nat)) (scores : list float)
  : result (list float) :=
  match folds with
  | [] => Ok scores
  | (train_idx, test_idx) :: rest =>
      match combine_sequences train_idx seqs with
      | Raise e => Raise e
      | Ok (trainX, trainLengths) =>
          let model :=
            match hmm_fit n seed trainX trainLengths with
            | Ok m => Some m
            | Raise _ => None
            end in
          match combine_sequences test_idx seqs with
          | Raise e => Raise e
          | Ok (testX, testLengths) =>
              match model with
              | None => Raise AttributeError
              | Some m =>
                  match hmm_score m testX testLengths with
                  | Raise e => Raise e
                  | Ok sc => CV_fold_scores seqs seed n rest (scores ++ [sc])
                  end
              end
          end
      end
  end.

(** The cross-validation score of the candidate with [n] states, as a
    function of the selector. *)
Definition CV_value (s : Selector) (n : Z) : result float :=
  match kfold_split (List.length (sequences s)) with
  | Raise e => Raise e
  | Ok folds =>
      match CV_fold_scores (sequences s) (random_state s) n folds [] with
      | Ok scores => Ok (np_mean scores)
      | Raise e => Raise e
      end
  end.

(** The held-out score of one fold: the model fitted with [n] states on
    the training sequences of the fold scores its held-out sequences. *)
Definition fold_scored (s : Selector) (n : Z)
    (fold : list nat * list nat) (sc : float) : Prop :=
  exists trainX trainLengths model testX testLengths,
    combine_sequences (fst fold) (sequences s) = Ok (trainX, trainLengths) /\
    hmm_fit n (random_state s) trainX trainLengths = Ok model /\
    combine_sequences (snd fold) (sequences s) = Ok (testX, testLengths) /\
    hmm_score model testX testLengths = Ok sc.

(** The CV score of the candidate with [n] states, in the criterion's
    words: the mean over the folds of the held-out scores. *)
Definition CV_is (s : Selector) (n : Z) (cv : float) : Prop :=
  exists folds scores,
    kfold_split (List.length (sequences s)) = Ok folds /\
    Forall2 (fold_scored s n) folds scores /\
    cv = np_mean scores.

End Vocabulary.

(** * Examples *)

(** ** A concrete fitting service, for closed examples *)

(** A fitted toy model remembers its state count and its training data. *)
Record ToyModel : Type := mkToy {
  toy_n : Z;
  toy_X : matrix;
  toy_lengths : list nat
}.

(** [np.mean] of a short list: the running sum divided by the length
    (0/0, that is nan, on the empty list). *)
Definition mean_small (l : list float) : float :=
  (fold_left PrimFloat.add l 0 / float_of_Z (Z.of_nat (List.length l)))%float.

(** [np.log] at the sizes the examples use. *)
Definition log_small (n : Z) : float :=
  if n =? 1 then 0%float
  else if n =? 2 then 0x1.62e42fefa39efp-1%float
  else if n =? 3 then 0x1.193ea7aad030bp+0%float
  else if n =? 4 then 0x1.62e42fefa39efp+0%float
  else nan.

(** [KFold(n_splits=k).split] without shuffling: consecutive test folds,
    the first [n mod k] of them one longer; the rest is the training part. *)
Definition fold_sizes (k n : nat) : list nat :=
  map (fun i => (n / k + if i <? n mod k then 1 else 0)%nat) (seq 0 k).

Fixpoint fold_bounds (sizes : list nat) (current : nat) : list (nat * nat) :=
  match sizes with
  | [] => []
  | sz :: rest => (current, (current + sz)%nat) :: fold_bounds rest (current + sz)%nat
  end.

Definition kfold (k n : nat) : result (list (list nat * list nat)) :=
  if (n <? k)%nat then Raise ValueError
  else
    Ok (map (fun b : nat * nat =>
               let (start, stop) := b in
               (filter (fun i => negb ((start <=? i)%nat && (i <? stop)%nat))
                       (seq 0 n),
                seq start (stop - start)))
            (fold_bounds (fold_sizes k n) 0%nat)).

(** The toy service: fitting fails at the state counts [fit_fails] names,
    and scoring is given by [loglik]. *)
Definition toy_lib (fit_fails : Z -> bool)
    (loglik : ToyModel -> matrix -> result float) : Collaborators :=
  {| Model := ToyModel;
     hmm_fit n _ x ls :=
       if fit_fails n then Raise (LibraryError "fit did not converge")
       else Ok (mkToy n x ls);
     hmm_score m x _ := loglik m x;
     np_log := log_small;
     np_mean := mean_small;
     kfold_split := kfold 3 |}.

(** ** A vocabulary for closed examples *)

(** FISH has three sequences (four frames of one feature), BOOK has three
    sequences of one frame. *)
Definition fish_sequences : list matrix :=
  [ [[1%float]]; [[2%float]]; [[3%float]; [4%float]] ].

Definition book_sequences : list matrix :=
  [ [[10%float]]; [[11%float]]; [[12%float]] ].

(** The concatenated index of a word's sequences. *)
Definition concatenated (seqs : list matrix) : matrix * list nat :=
  (List.concat seqs, map (@List.length frame) seqs).

Definition example_sequences : dict (list matrix) :=
  [("FISH"%string, fish_sequences); ("BOOK"%string, book_sequences)].

Definition example_Xlengths : dict (matrix * list nat) :=
  [("FISH"%string, concatenated fish_sequences);
   ("BOOK"%string, concatenated book_sequences)].

(** The selector for FISH, searching 2 to 4 states, falling back to 3. *)
Definition fish_selector : Selector :=
  mkSelector example_sequences example_Xlengths fish_sequences
    (fst (concatenated fish_sequences)) (snd (concatenated fish_sequences))
    "FISH" 3 2 4 14 false.

Definition fish_state : State := mkState fish_selector [].

(** A score proportional to the number of frames scored: [ll n] per frame
    for a model of [n] states. *)
Definition per_frame (ll : Z -> Z) (m : ToyModel) (x : matrix)
  : result float :=
  Ok (float_of_Z (ll (toy_n m) * Z.of_nat (List.length x))).

(** -5 per frame with two states, -4 with three, -2 with four or more. *)
Definition example_ll (n : Z) : Z :=
  if n <=? 2 then -5 else if n =? 3 then -4 else -2.

(** Every fit converges. *)
Definition lib_all_fit : Collaborators :=
  toy_lib (fun _ => false) (per_frame example_ll).

(** The fit with two states does not converge; the others do. *)
Definition lib_two_fails : Collaborators :=
  toy_lib (fun n => n =? 2) (per_frame example_ll).

(** No model can score anything. *)
Definition lib_never_scores : Collaborators :=
  toy_lib (fun _ => false)
          (fun _ _ => Raise (LibraryError "score is undefined")).

(** One model per word of the example vocabulary: four states for FISH,
    two for BOOK. *)
Definition example_models : dict ToyModel :=
  [("FISH"%string,
    mkToy 4 (fst (concatenated fish_sequences))
            (snd (concatenated fish_sequences)));
   ("BOOK"%string,
    mkToy 2 (fst (concatenated book_sequences))
            (snd (concatenated book_sequences)))].

(** A test set of one item of two frames. *)
Definition example_test_set : list (Z * (matrix * list nat)) :=
  [(0, ([[1%float]; [2%float]], [2%nat]))].

(** The selector for FISH with an empty range of state counts. *)
Definition empty_range_state : State :=
  mkState
    (mkSelector example_sequences example_Xlengths fish_sequences
       (fst (concatenated fish_sequences)) (snd (concatenated fish_sequences))
       "FISH" 3 5 2 14 false)
    [].

(** A word with two sequences only, too few for three folds. *)
Definition short_sequences : list matrix := [ [[1%float]]; [[2%float]] ].

Definition short_state : State :=
  mkState
    (mkSelector [("FISH"%string, short_sequences)]
       [("FISH"%string, concatenated short_sequences)] short_sequences
       (fst (concatenated short_sequences)) (snd (concatenated short_sequences))
       "FISH" 3 2 4 14 false)
    [].

(** A vocabulary of FISH alone. *)
Definition lonely_state : State :=
  mkState
    (mkSelector [("FISH"%string, fish_sequences)]
       [("FISH"%string, concatenated fish_sequences)] fish_sequences
       (fst (concatenated fish_sequences)) (snd (concatenated fish_sequences))
       "FISH" 3 2 4 14 false)
    [].

(** Every model gives every data a likelihood of zero. *)
Definition lib_zero_likelihood : Collaborators :=
  toy_lib (fun _ => false) (fun _ _ => Ok neg_infinity).

(** The selector for FISH again, verbose, without the [words] mapping and
    after a line was printed. *)
Definition verbose_fish_state : State :=
  mkState
    (mkSelector [] example_Xlengths fish_sequences
       (fst (concatenated fish_sequences)) (snd (concatenated fish_sequences))
       "FISH" 3 2 4 14 true)
    [PrintCreated "BOOK" 3].

(** * Properties *)

(** ** The examples are what the constructor builds *)

Example init_fish :
  init example_sequences example_Xlengths "FISH" 3 2 4 14 false
  = Some fish_selector.
Proof. reflexivity. Qed.

Example kfold_three_of_three :
  kfold 3 3 = Ok [([1; 2], [0]); ([0; 2], [1]); ([0; 1], [2])]%nat.
Proof. reflexivity. Qed.

Example kfold_three_of_two : kfold 3 2 = Raise ValueError.
Proof. reflexivity. Qed.

(** ** The order on floats *)

Lemma compare_cont_Eq (p q : positive) :
  PosDef.Pos.compare_cont Eq p q = Pos.compare p q.
Proof. reflexivity. Qed.

Ltac order_cases :=
  repeat match goal with
  | |- context [Z.compare ?a ?b] => destruct (Z.compare_spec a b); subst
  | H : context [Z.compare ?a ?b] |- _ => destruct (Z.compare_spec a b); subst
  | |- context [Pos.compare ?a ?b] => destruct (Pos.compare_spec a b); subst
  | H : context [Pos.compare ?a ?b] |- _ =>
      destruct (Pos.compare_spec a b); subst
  end;
  simpl in *; try discriminate; try reflexivity; try lia.

Ltac spec_float_cases a b c :=
  destruct a as [?|?| |? ? ?], b as [?|?| |? ? ?], c as [?|?| |? ? ?];
  simpl; try discriminate; try reflexivity;
  repeat match goal with s : bool |- _ => destruct s end;
  simpl; try discriminate; try reflexivity;
  intros; rewrite ?compare_cont_Eq in *; order_cases.

Lemma SFltb_trans a b c :
  SFltb a b = true -> SFltb b c = true -> SFltb a c = true.
Proof. unfold SFltb. spec_float_cases a b c. Qed.

Lemma SFleb_ltb_trans a b c :
  SFleb a b = true -> SFltb b c = true -> SFltb a c = true.
Proof. unfold SFltb, SFleb. spec_float_cases a b c. Qed.

Lemma SFltb_leb_trans a b c :
  SFltb a b = true -> SFleb b c = true -> SFltb a c = true.
Proof. unfold SFltb, SFleb. spec_float_cases a b c. Qed.

Lemma SFltb_irrefl a : SFltb a a = false.
Proof.
  unfold SFltb.
  destruct a as [s|s| |s m e]; simpl; try reflexivity;
    try (destruct s; reflexivity).
  rewrite compare_cont_Eq, Z.compare_refl, Pos.compare_refl.
  destruct s; reflexivity.
Qed.

Lemma float_ltb_trans (a b c : float) :
  PrimFloat.ltb a b = true -> PrimFloat.ltb b c = true ->
  PrimFloat.ltb a c = true.
Proof. rewrite !ltb_spec. apply SFltb_trans. Qed.

Lemma float_leb_ltb_trans (a b c : float) :
  PrimFloat.leb a b = true -> PrimFloat.ltb b c = true ->
  PrimFloat.ltb a c = true.
Proof. rewrite !ltb_spec, leb_spec. apply SFleb_ltb_trans. Qed.

Lemma float_ltb_leb_trans (a b c : float) :
  PrimFloat.ltb a b = true -> PrimFloat.leb b c = true ->
  PrimFloat.ltb a c = true.
Proof. rewrite !ltb_spec, leb_spec. apply SFltb_leb_trans. Qed.

Lemma float_ltb_irrefl (a : float) : PrimFloat.ltb a a = false.
Proof. rewrite ltb_spec. apply SFltb_irrefl. Qed.

(** ** Running the fitting primitive *)

Section SelectorFacts.

Context {lib : Collaborators}.

Lemma base_model_run (n : Z) (st : State) :
  base_model n st =
  (Ok (fit_outcome (self st) n),
   mkState (self st) (trace st ++ base_model_events (self st) n)).
Proof.
  destruct st as [s tr].
  unfold base_model, fit_outcome, base_model_events, bind, get_self, emit,
    when, ret; simpl.
  destruct (hmm_fit n (random_state s) (X s) (lengths s)), (verbose s);
    simpl; rewrite <- ?app_assoc; simpl; try reflexivity;
    rewrite app_nil_r; reflexivity.
Qed.

Lemma fallback_run (st : State) :
  fallback st =
  (Ok (fit_outcome (self st) (n_constant (self st))),
   mkState (self st)
     (trace st ++ base_model_events (self st) (n_constant (self st)))).
Proof. unfold fallback, bind, get_self. apply base_model_run. Qed.

Lemma fit_calls_app (tr1 tr2 : list event) :
  fit_calls (tr1 ++ tr2) = fit_calls tr1 ++ fit_calls tr2.
Proof. apply filter_app. Qed.

Lemma fit_calls_base_model_events (s : Selector) (n : Z) :
  fit_calls (base_model_events s n) =
  [FitCall n (random_state s) (X s) (lengths s)].
Proof.
  unfold base_model_events, fit_calls; simpl.
  destruct (verbose s); simpl; [|reflexivity].
  destruct (hmm_fit n (random_state s) (X s) (lengths s)); reflexivity.
Qed.

(** C10. [SelectorConstant.select] makes exactly one fitting attempt, at
    [n_constant] states on the selector's own data, and returns what that
    attempt gave: the fitted model, or no model when the fit failed.  The
    selector object is left as it was. *)
Theorem SelectorConstant_select_single_fit (st : State) :
  exists st',
    SelectorConstant_select st =
      (Ok (match hmm_fit (n_constant (self st)) (random_state (self st))
                   (X (self st)) (lengths (self st)) with
           | Ok m => Some m
           | Raise _ => None
           end), st') /\
    self st' = self st /\
    fit_calls (trace st') =
      fit_calls (trace st) ++
      [FitCall (n_constant (self st)) (random_state (self st))
         (X (self st)) (lengths (self st))].
Proof.
  eexists. split.
  - unfold SelectorConstant_select, bind, get_self.
    rewrite base_model_run. reflexivity.
  - simpl. split; [reflexivity|].
    rewrite fit_calls_app, fit_calls_base_model_events. reflexivity.
Qed.

(** C1. For each of the four selectors [select] returns normally; when the
    search raised, whatever the exception, the value returned is the result
    of fitting at [n_constant] in the state the search left, and when the
    search returned, its value is the one [select] returns. *)
Theorem select_never_raises (k : selector_kind) (st : State) :
  exists r st',
    select k st = (Ok r, st') /\
    (forall e st1, search k st = (Raise e, st1) ->
       base_model (n_constant (self st1)) st1 = (Ok r, st') /\
       r = fit_outcome (self st1) (n_constant (self st1))) /\
    (forall a st1, search k st = (Ok a, st1) -> a = r /\ st1 = st').
Proof.
  destruct k; simpl.
  - unfold SelectorConstant_select, bind, get_self. simpl.
    rewrite base_model_run. do 2 eexists. split; [reflexivity|].
    split; intros ? ? H; inversion H; subst; auto.
  - unfold SelectorBIC_select, try_except.
    destruct (SelectorBIC_search st) as [[a|e] st1] eqn:E.
    + do 2 eexists. split; [reflexivity|].
      split; intros ? ? H; inversion H; subst; auto.
    + rewrite fallback_run. do 2 eexists. split; [reflexivity|].
      split; intros ? ? H; inversion H; subst.
      rewrite base_model_run. auto.
  - unfold SelectorDIC_select, try_except.
    destruct (SelectorDIC_search st) as [[a|e] st1] eqn:E.
    + do 2 eexists. split; [reflexivity|].
      split; intros ? ? H; inversion H; subst; auto.
    + rewrite fallback_run. do 2 eexists. split; [reflexivity|].
      split; intros ? ? H; inversion H; subst.
      rewrite base_model_run. auto.
  - unfold SelectorCV_select, try_except.
    destruct (SelectorCV_search st) as [[a|e] st1] eqn:E.
    + do 2 eexists. split; [reflexivity|].
      split; intros ? ? H; inversion H; subst; auto.
    + rewrite fallback_run. do 2 eexists. split; [reflexivity|].
      split; intros ? ? H; inversion H; subst.
      rewrite base_model_run. auto.
Qed.

End SelectorFacts.

(** ** Methods that read the selector without changing it *)

Lemma frame_pure_ret {A} (a : A) : frame_pure (ret a).
Proof. split; intros; reflexivity. Qed.

Lemma frame_pure_lift {A} (r : result A) : frame_pure (lift r).
Proof. split; intros; reflexivity. Qed.

Lemma frame_pure_raise {A} (e : exn) : frame_pure (@raise A e).
Proof. split; intros; reflexivity. Qed.

Lemma frame_pure_get_self : frame_pure get_self.
Proof. split; intros; simpl; congruence. Qed.

Lemma frame_pure_bind {A B} (m : M A) (k : A -> M B) :
  frame_pure m -> (forall a, frame_pure (k a)) -> frame_pure (bind m k).
Proof.
  intros [Hs Hr] Hk. split.
  - intros st. unfold bind. specialize (Hs st).
    destruct (m st) as [[a|e] st']; simpl in *; [|assumption].
    destruct (Hk a) as [Hks _]. rewrite Hks. assumption.
  - intros st1 st2 E. unfold bind.
    pose proof (Hr st1 st2 E) as R.
    pose proof (Hs st1) as S1. pose proof (Hs st2) as S2.
    destruct (m st1) as [[a1|e1] st1'], (m st2) as [[a2|e2] st2'];
      simpl in *; try discriminate; [|congruence].
    inversion R; subst. destruct (Hk a2) as [_ Hkr].
    apply Hkr. congruence.
Qed.

Lemma frame_pure_self {A} (m : M A) (st : State) (r : result A) (st' : State) :
  frame_pure m -> m st = (r, st') -> self st' = self st.
Proof. intros [Hs _] E. specialize (Hs st). rewrite E in Hs. exact Hs. Qed.

Lemma frame_pure_fst {A} (m : M A) (st1 st2 : State) :
  frame_pure m -> self st1 = self st2 -> fst (m st1) = fst (m st2).
Proof. intros [_ Hr]. apply Hr. Qed.

Section FramePureMethods.

Context {lib : Collaborators}.

Lemma frame_pure_base_model (n : Z) : frame_pure (base_model n).
Proof.
  split; intros; rewrite !base_model_run; simpl; congruence.
Qed.

Lemma frame_pure_score_of (model : option Model) (x : matrix) (ls : list nat) :
  frame_pure (score_of model x ls).
Proof.
  destruct model; [apply frame_pure_lift | apply frame_pure_raise].
Qed.

End FramePureMethods.

(** Frame-purity of a straight-line method body, one call at a time. *)
Ltac frame_pure_steps :=
  repeat first
    [ apply frame_pure_base_model
    | apply frame_pure_get_self
    | apply frame_pure_score_of
    | apply frame_pure_lift
    | apply frame_pure_ret
    | progress cbv zeta
    | apply frame_pure_bind; [|intro] ].

Section FramePureScores.

Context {lib : Collaborators}.

Lemma frame_pure_BIC_score (n : Z) : frame_pure (BIC_score n).
Proof. unfold BIC_score. frame_pure_steps. Qed.

Lemma frame_pure_DIC_loganti (model : option Model) (this : string)
    (items : dict (matrix * list nat)) (loganti : list float) :
  frame_pure (DIC_loganti model this items loganti).
Proof.
  revert loganti.
  induction items as [|[word [sq len]] rest IH]; intros; simpl.
  - apply frame_pure_ret.
  - destruct (negb (String.eqb word this)); [|apply IH].
    apply frame_pure_bind; [apply frame_pure_score_of|intro; apply IH].
Qed.

Lemma frame_pure_DIC_score (n : Z) : frame_pure (DIC_score n).
Proof.
  unfold DIC_score. frame_pure_steps. apply frame_pure_DIC_loganti.
Qed.

End FramePureScores.

(** ** The search loop *)

Section SearchLoop.

Context {lib : Collaborators}.

Variables (better better_eq : float -> float -> bool).
Variable score_fn : Z -> M float.

Hypothesis better_irrefl : forall a, better a a = false.
Hypothesis better_trans :
  forall a b c, better a b = true -> better b c = true -> better a c = true.
Hypothesis better_eq_trans :
  forall a b c, better_eq a b = true -> better b c = true -> better a c = true.
Hypothesis score_pure : forall n, frame_pure (score_fn n).

Lemma frame_pure_search_loop (ns : list Z) (b0 : float) (bn0 : option Z) :
  frame_pure (search_loop better score_fn ns b0 bn0).
Proof.
  revert b0 bn0. induction ns as [|n ns IH]; intros; simpl.
  - apply frame_pure_ret.
  - apply frame_pure_bind; [apply score_pure|].
    intro s. destruct (better s b0); apply IH.
Qed.

(** A completed search scored every candidate, and its running best is
    either the initial one or the first candidate, in order, that no other
    candidate beats. *)
Lemma search_loop_ok (ns : list Z) :
  forall st b0 bn0 b bn st',
    search_loop better score_fn ns b0 bn0 st = (Ok (b, bn), st') ->
    (forall m, In m ns ->
       exists sm, fst (score_fn m st) = Ok sm /\ better sm b = false) /\
    ((b = b0 /\ bn = bn0) \/
     exists pre n post,
       ns = pre ++ n :: post /\ bn = Some n /\
       fst (score_fn n st) = Ok b /\ better b b0 = true /\
       forall m, In m pre ->
         exists sm, fst (score_fn m st) = Ok sm /\ better_eq sm b = false).
Proof.
  induction ns as [|n ns IH]; intros st b0 bn0 b bn st' E; simpl in E.
  - inversion E; subst. split; [intros m []|left; auto].
  - unfold bind in E.
    destruct (score_fn n st) as [[s|e] st1] eqn:Es; [|discriminate].
    assert (S1 : self st1 = self st)
      by (eapply frame_pure_self; [apply score_pure|exact Es]).
    assert (Hn : fst (score_fn n st) = Ok s) by (rewrite Es; reflexivity).
    assert (Hst : forall m, fst (score_fn m st1) = fst (score_fn m st))
      by (intro m; apply frame_pure_fst; [apply score_pure|exact S1]).
    destruct (better s b0) eqn:Eb; apply IH in E; destruct E as [A B].
    + (* the candidate becomes the running best *)
      assert (Hsb : better s b = false /\ (b = s \/ better b s = true)).
      { destruct B as [[-> _]|(pre & n' & post & _ & _ & _ & Hb & _)].
        - split; [apply better_irrefl|auto].
        - split; [|auto]. destruct (better s b) eqn:C; [|reflexivity].
          rewrite <- (better_irrefl s). symmetry. eauto. }
      destruct Hsb as [Hsb Hbs]. split.
      * intros m [<-|Hm]; [eauto|].
        destruct (A m Hm) as (sm & Hsm & Hlt). rewrite Hst in Hsm. eauto.
      * right.
        destruct B as [[-> ->]|(pre & n' & post & -> & -> & Hn' & Hb & Hpre)].
        -- exists [], n, ns. repeat split; auto. intros m [].
        -- exists (n :: pre), n', post. rewrite Hst in Hn'.
           repeat split; eauto.
           intros m [<-|Hm].
           ++ exists s. split; [assumption|].
              destruct (better_eq s b) eqn:C; [|reflexivity].
              rewrite <- (better_irrefl s). symmetry. eauto.
           ++ destruct (Hpre m Hm) as (sm & Hsm & Hle).
              rewrite Hst in Hsm. eauto.
    + (* the running best stays *)
      split.
      * intros m [<-|Hm].
        -- exists s. split; [assumption|].
           destruct B as [[-> _]|(pre & n' & post & _ & _ & _ & Hb & _)];
             [assumption|].
           destruct (better s b) eqn:C; [|reflexivity].
           rewrite <- Eb. symmetry. eauto.
        -- destruct (A m Hm) as (sm & Hsm & Hlt). rewrite Hst in Hsm. eauto.
      * destruct B as [[-> ->]|(pre & n' & post & -> & -> & Hn' & Hb & Hpre)];
          [left; auto|right].
        exists (n :: pre), n', post. rewrite Hst in Hn'.
        repeat split; eauto.
        intros m [<-|Hm].
        -- exists s. split; [assumption|].
           destruct (better_eq s b) eqn:C; [|reflexivity].
           rewrite <- Eb. symmetry. eauto.
        -- destruct (Hpre m Hm) as (sm & Hsm & Hle).
           rewrite Hst in Hsm. eauto.
Qed.

(** A candidate whose scoring raises makes the whole loop raise. *)
Lemma search_loop_raise (ns : list Z) :
  forall st b0 bn0 n e,
    In n ns -> fst (score_fn n st) = Raise e ->
    exists e' st', search_loop better score_fn ns b0 bn0 st = (Raise e', st').
Proof.
  induction ns as [|n0 ns IH]; intros st b0 bn0 n e Hin Hr; [destruct Hin|].
  simpl. unfold bind.
  destruct (score_fn n0 st) as [[s|e0] st1] eqn:Es; [|eauto].
  assert (S1 : self st1 = self st)
    by (eapply frame_pure_self; [apply score_pure|exact Es]).
  destruct Hin as [<-|Hin].
  - rewrite Es in Hr. discriminate.
  - rewrite <- (frame_pure_fst (score_fn n) st1 st (score_pure n) S1) in Hr.
    destruct (better s b0); eapply IH; eauto.
Qed.

End SearchLoop.

(** ** Ranges of state counts *)

Lemma in_range_incl (a b n : Z) : In n (range_incl a b) <-> a <= n <= b.
Proof.
  unfold range_incl. rewrite in_map_iff. split.
  - intros (i & <- & Hi). apply in_seq in Hi. lia.
  - intros H. exists (Z.to_nat (n - a)). split; [lia|].
    apply in_seq. lia.
Qed.

Lemma sorted_map_seq (a : Z) (k start : nat) :
  StronglySorted Z.lt (map (fun i => a + Z.of_nat i) (seq start k)).
Proof.
  revert start. induction k as [|k IH]; intros start; simpl.
  - constructor.
  - constructor; [apply IH|].
    apply Forall_forall. intros z Hz. apply in_map_iff in Hz.
    destruct Hz as (i & <- & Hi). apply in_seq in Hi. lia.
Qed.

Lemma sorted_range_incl (a b : Z) : StronglySorted Z.lt (range_incl a b).
Proof. apply sorted_map_seq. Qed.

Lemma sorted_split_after (pre : list Z) (n : Z) (post : list Z) :
  StronglySorted Z.lt (pre ++ n :: post) -> forall m, In m post -> n < m.
Proof.
  induction pre as [|p pre IH]; simpl; intros H m Hm.
  - apply StronglySorted_inv in H. destruct H as [_ H].
    rewrite Forall_forall in H. auto.
  - apply StronglySorted_inv in H. destruct H as [H _]. auto.
Qed.

(** In a strictly increasing list, what is smaller than an element stands
    before it. *)
Lemma sorted_split_before (pre : list Z) (n : Z) (post : list Z) (m : Z) :
  StronglySorted Z.lt (pre ++ n :: post) ->
  In m (pre ++ n :: post) -> m < n -> In m pre.
Proof.
  intros H Hin Hlt. apply in_app_or in Hin.
  destruct Hin as [Hin|[->|Hin]]; [assumption|lia|].
  pose proof (sorted_split_after pre n post H m Hin). lia.
Qed.

(** ** The criteria *)

Section Criteria.

Context {lib : Collaborators}.

Lemma BIC_score_is (n : Z) (st : State) (bic : float) :
  fst (BIC_score n st) = Ok bic -> BIC_is (self st) n bic.
Proof.
  unfold BIC_score, bind, get_self. rewrite base_model_run. simpl.
  unfold fit_outcome, BIC_is.
  destruct (hmm_fit n _ _ _) as [model|e] eqn:Ef; simpl; [|discriminate].
  unfold lift.
  destruct (hmm_score model _ _) as [logL|e] eqn:Es; simpl; [|discriminate].
  destruct (shape1 _) as [f|e] eqn:Ex; simpl; [|discriminate].
  intros H. inversion H. exists model, logL, f. auto.
Qed.

Lemma DIC_loganti_scored (model : Model) (this : string)
    (items : dict (matrix * list nat)) :
  forall acc st l st',
    DIC_loganti (Some model) this items acc st = (Ok l, st') ->
    exists more,
      l = acc ++ more /\
      scored_against model
        (filter (fun it => negb (String.eqb (fst it) this)) items) more.
Proof.
  induction items as [|[word [sq len]] rest IH]; intros acc st l st' E;
    simpl in E.
  - inversion E; subst. exists []. rewrite app_nil_r. split; constructor.
  - simpl. destruct (negb (String.eqb word this)).
    + unfold bind, score_of, lift in E.
      destruct (hmm_score model sq len) as [sc|e] eqn:Es; [|discriminate].
      apply IH in E. destruct E as (more & -> & F).
      exists (sc :: more). rewrite <- app_assoc. split; [reflexivity|].
      constructor; assumption.
    + apply IH in E. exact E.
Qed.

Lemma DIC_score_is (n : Z) (st : State) (dic : float) :
  fst (DIC_score n st) = Ok dic -> DIC_is (self st) n dic.
Proof.
  unfold DIC_score, bind, get_self. rewrite base_model_run. simpl.
  unfold fit_outcome, DIC_is.
  destruct (hmm_fit n _ _ _) as [model|e] eqn:Ef; simpl; [|discriminate].
  unfold lift.
  destruct (hmm_score model _ _) as [logL|e] eqn:Es; simpl; [|discriminate].
  destruct (DIC_loganti _ _ _ _ _) as [[l|e] st'] eqn:El; simpl;
    [|discriminate].
  apply DIC_loganti_scored in El. destruct El as (more & -> & F).
  intros H. inversion H. exists model, logL, more. auto.
Qed.

(** C5. When the search of [SelectorBIC.select] completes (the fallback is
    not taken), the model returned is the one fitted at a state count [n]
    of the range whose BIC, [-2 * logL + p * log N] with
    [p = n^2 + 2 * n * f - 1], no candidate of the range undercuts; every
    smaller candidate has a BIC that is not even equal to it, so that among
    tied minima the smallest state count is the one chosen. *)
Theorem SelectorBIC_select_minimises_BIC (st : State)
    (r : option Model) (st1 : State) :
  SelectorBIC_search st = (Ok r, st1) ->
  exists n model bic,
    min_n_components (self st) <= n <= max_n_components (self st) /\
    hmm_fit n (random_state (self st)) (X (self st)) (lengths (self st))
      = Ok model /\
    SelectorBIC_select st = (Ok (Some model), st1) /\
    BIC_is (self st) n bic /\
    forall n',
      min_n_components (self st) <= n' <= max_n_components (self st) ->
      exists bic',
        BIC_is (self st) n' bic' /\
        PrimFloat.ltb bic' bic = false /\
        (n' < n -> PrimFloat.leb bic' bic = false).
Proof.
  intros E. unfold SelectorBIC_select, try_except. rewrite E.
  unfold SelectorBIC_search, bind, get_self in E.
  destruct (search_loop _ _ _ _ _ _) as [[[b bn]|e] st2] eqn:El;
    [|discriminate].
  pose proof (frame_pure_self _ _ _ _
    (frame_pure_search_loop float_lt BIC_score frame_pure_BIC_score _ _ _) El)
    as S2.
  apply (search_loop_ok float_lt PrimFloat.leb BIC_score float_ltb_irrefl
           float_ltb_trans float_leb_ltb_trans frame_pure_BIC_score) in El.
  destruct El as [A [[_ ->]|(pre & n & post & Hr & -> & Hn & _ & Hpre)]];
    [discriminate|].
  simpl in E. rewrite base_model_run in E. inversion E; subst r st1.
  pose proof (BIC_score_is _ _ _ Hn) as Hbic.
  destruct Hbic as (model & logL & f & Hf & Hs & Hx & Hb).
  exists n, model, b.
  split; [apply in_range_incl; rewrite Hr; apply in_elt|].
  split; [exact Hf|].
  split; [unfold fit_outcome; rewrite S2, Hf; reflexivity|].
  split; [exists model, logL, f; auto|].
  - intros n' Hn'. apply in_range_incl in Hn'.
    destruct (A n' Hn') as (bic' & Hs' & Hlt).
    exists bic'. split; [apply BIC_score_is; exact Hs'|].
    split; [exact Hlt|]. intros Hlt'.
    assert (Hin : In n' pre).
    { apply (sorted_split_before pre n post); [| |exact Hlt'].
      - rewrite <- Hr. apply sorted_range_incl.
      - rewrite <- Hr. exact Hn'. }
    destruct (Hpre n' Hin) as (bic'' & Hs'' & Hle).
    rewrite Hs' in Hs''. inversion Hs''; subst. exact Hle.
Qed.

(** C6. When the search of [SelectorDIC.select] completes (the fallback is
    not taken), the model returned is the one fitted at a state count [n]
    of the range whose DIC, the word's log-likelihood minus the mean
    log-likelihood of every other word under the candidate, no candidate of
    the range exceeds; every smaller candidate has a DIC that is not even
    equal to it, so that among tied maxima the first one is chosen. *)
Theorem SelectorDIC_select_maximises_DIC (st : State)
    (r : option Model) (st1 : State) :
  SelectorDIC_search st = (Ok r, st1) ->
  exists n model dic,
    min_n_components (self st) <= n <= max_n_components (self st) /\
    hmm_fit n (random_state (self st)) (X (self st)) (lengths (self st))
      = Ok model /\
    SelectorDIC_select st = (Ok (Some model), st1) /\
    DIC_is (self st) n dic /\
    forall n',
      min_n_components (self st) <= n' <= max_n_components (self st) ->
      exists dic',
        DIC_is (self st) n' dic' /\
        PrimFloat.ltb dic dic' = false /\
        (n' < n -> PrimFloat.leb dic dic' = false).
Proof.
  intros E. unfold SelectorDIC_select, try_except. rewrite E.
  unfold SelectorDIC_search, bind, get_self in E.
  destruct (search_loop _ _ _ _ _ _) as [[[b bn]|e] st2] eqn:El;
    [|discriminate].
  pose proof (frame_pure_self _ _ _ _
    (frame_pure_search_loop float_gt DIC_score frame_pure_DIC_score _ _ _) El)
    as S2.
  apply (search_loop_ok float_gt (fun a b => PrimFloat.leb b a) DIC_score)
    in El.
  - destruct El as [A [[_ ->]|(pre & n & post & Hr & -> & Hn & _ & Hpre)]];
      [discriminate|].
    simpl in E. rewrite base_model_run in E. inversion E; subst r st1.
    pose proof (DIC_score_is _ _ _ Hn) as Hdic.
    destruct Hdic as (model & logL & loganti & Hf & Hs & Hx & Hb).
    exists n, model, b.
    split; [apply in_range_incl; rewrite Hr; apply in_elt|].
    split; [exact Hf|].
    split; [unfold fit_outcome; rewrite S2, Hf; reflexivity|].
    split; [exists model, logL, loganti; auto|].
    + intros n' Hn'. apply in_range_incl in Hn'.
      destruct (A n' Hn') as (dic' & Hs' & Hlt).
      exists dic'. split; [apply DIC_score_is; exact Hs'|].
      split; [exact Hlt|]. intros Hlt'.
      assert (Hin : In n' pre).
      { apply (sorted_split_before pre n post); [| |exact Hlt'].
        - rewrite <- Hr. apply sorted_range_incl.
        - rewrite <- Hr. exact Hn'. }
      destruct (Hpre n' Hin) as (dic'' & Hs'' & Hle).
      rewrite Hs' in Hs''. inversion Hs''; subst. exact Hle.
  - intro a. apply float_ltb_irrefl.
  - intros a b0 c H1 H2. unfold float_gt in *. eapply float_ltb_trans; eauto.
  - intros a b0 c H1 H2. unfold float_gt in *.
    eapply float_ltb_leb_trans; eauto.
  - apply frame_pure_DIC_score.
Qed.

End Criteria.

(** ** Failing candidates *)

Section FailingCandidates.

Context {lib : Collaborators}.

Lemma BIC_score_fails (s : Selector) (n : Z) (st : State) :
  self st = s -> candidate_fails s n ->
  exists e, fst (BIC_score n st) = Raise e.
Proof.
  intros <- H. unfold BIC_score, bind, get_self. rewrite base_model_run.
  simpl. unfold fit_outcome.
  destruct H as [(e & Hf)|(model & e & Hf & Hs)]; rewrite Hf; simpl.
  - eauto.
  - unfold lift. rewrite Hs. simpl. eauto.
Qed.

End FailingCandidates.

(** With two states failing to fit, the search over 2..4 is abandoned:
    [select] returns the three-state fallback although the four-state
    candidate fits and has the lower BIC. *)
Example SelectorBIC_two_fails_run :
  fst (SelectorBIC_select (lib := lib_two_fails) fish_state)
    = Ok (Some (mkToy 3 (X fish_selector) (lengths fish_selector))) /\
  (exists bic3 bic4,
     fst (BIC_score (lib := lib_two_fails) 3 fish_state) = Ok bic3 /\
     fst (BIC_score (lib := lib_two_fails) 4 fish_state) = Ok bic4 /\
     PrimFloat.ltb bic4 bic3 = true).
Proof.
  split; [vm_compute; reflexivity|].
  do 2 eexists. repeat split; vm_compute; reflexivity.
Qed.

(** C3 (as stated) fails: the four-state candidate is usable, yet the
    search raises at the failed two-state candidate. *)
Lemma SelectorBIC_does_not_skip :
  ~ BIC_skips_failed_candidates (lib := lib_two_fails) fish_state.
Proof.
  intros H. destruct H as (r & st1 & E).
  - exists 4. split; [simpl; lia|].
    eexists. split.
    + apply (BIC_score_is (lib := lib_two_fails) 4 fish_state).
      vm_compute. reflexivity.
    + vm_compute. reflexivity.
  - vm_compute in E. discriminate E.
Qed.

Lemma SelectorBIC_select_minimises_BIC_witness :
  exists r st1,
    SelectorBIC_search (lib := lib_all_fit) fish_state = (Ok r, st1) /\
    exists n model bic,
      2 <= n <= 4 /\
      hmm_fit (Collaborators := lib_all_fit) n 14
        (X fish_selector) (lengths fish_selector) = Ok model /\
      SelectorBIC_select (lib := lib_all_fit) fish_state
        = (Ok (Some model), st1) /\
      BIC_is (lib := lib_all_fit) fish_selector n bic /\
      forall n', 2 <= n' <= 4 ->
        exists bic',
          BIC_is (lib := lib_all_fit) fish_selector n' bic' /\
          PrimFloat.ltb bic' bic = false /\
          (n' < n -> PrimFloat.leb bic' bic = false).
Proof.
  do 2 eexists. split.
  - vm_compute. reflexivity.
  - eapply (SelectorBIC_select_minimises_BIC (lib := lib_all_fit) fish_state).
    reflexivity.
Defined.

Lemma SelectorDIC_select_maximises_DIC_witness :
  exists r st1,
    SelectorDIC_search (lib := lib_all_fit) fish_state = (Ok r, st1) /\
    exists n model dic,
      2 <= n <= 4 /\
      hmm_fit (Collaborators := lib_all_fit) n 14
        (X fish_selector) (lengths fish_selector) = Ok model /\
      SelectorDIC_select (lib := lib_all_fit) fish_state
        = (Ok (Some model), st1) /\
      DIC_is (lib := lib_all_fit) fish_selector n dic /\
      forall n', 2 <= n' <= 4 ->
        exists dic',
          DIC_is (lib := lib_all_fit) fish_selector n' dic' /\
          PrimFloat.ltb dic dic' = false /\
          (n' < n -> PrimFloat.leb dic dic' = false).
Proof.
  do 2 eexists. split.
  - vm_compute. reflexivity.
  - eapply (SelectorDIC_select_maximises_DIC (lib := lib_all_fit) fish_state).
    reflexivity.
Defined.

(** ** The recognizer *)

Lemma float_gt_irrefl (a : float) : float_gt a a = false.
Proof. apply float_ltb_irrefl. Qed.

Lemma float_gt_trans (a b c : float) :
  float_gt a b = true -> float_gt b c = true -> float_gt a c = true.
Proof. unfold float_gt. intros H1 H2. eapply float_ltb_trans; eauto. Qed.

Lemma float_ge_gt_trans (a b c : float) :
  PrimFloat.leb b a = true -> float_gt b c = true -> float_gt a c = true.
Proof. unfold float_gt. intros H1 H2. eapply float_ltb_leb_trans; eauto. Qed.

Lemma dict_set_fresh {V} (k : string) (v : V) (d : dict V) :
  ~ In k (keys d) -> dict_set k v d = d ++ [(k, v)].
Proof.
  induction d as [|[k' v'] d IH]; simpl; intros H; [reflexivity|].
  destruct (String.eqb_spec k k') as [->|Hne]; [tauto|].
  rewrite IH; tauto.
Qed.

Lemma dict_set_in {V} (k : string) (v : V) (d : dict V) (w : string) (s : V) :
  In (w, s) (dict_set k v d) -> (w = k /\ s = v) \/ In (w, s) d.
Proof.
  induction d as [|[k' v'] d IH]; simpl.
  - intros [H|[]]. inversion H. auto.
  - destruct (String.eqb_spec k k') as [->|Hne]; simpl.
    + intros [H|H]; [inversion H; auto|auto].
    + intros [H|H]; [auto|]. apply IH in H. tauto.
Qed.

Lemma dict_get_in_nodup {V} (k : string) (v : V) (d : dict V) :
  NoDup (keys d) -> In (k, v) d -> dict_get k d = Some v.
Proof.
  induction d as [|[k' v'] d IH]; simpl; intros Hnd Hin; [destruct Hin|].
  inversion Hnd as [|? ? Hnotin Hnd']; subst.
  destruct Hin as [H|H].
  - inversion H; subst. rewrite String.eqb_refl. reflexivity.
  - destruct (String.eqb_spec k k') as [->|Hne]; [|auto].
    exfalso. apply Hnotin. apply (in_map fst) in H. exact H.
Qed.

Section Recognizer.

Context {lib : Collaborators}.

Lemma recognize_loop_spec (models : dict Model)
    (items : list (Z * (matrix * list nat))) :
  forall probabilities guesses,
    recognize_loop models items probabilities guesses =
    (probabilities ++ map (row_of models) items,
     guesses ++ map (guess_of models) items).
Proof.
  induction items as [|[id [x ls]] items IH]; intros P G; simpl.
  - rewrite !app_nil_r. reflexivity.
  - unfold row_of at 1, guess_of at 1. simpl.
    destruct (recognize_row models x ls neg_infinity [] EmptyString)
      as [probdict best_guess].
    rewrite IH, <- !app_assoc. reflexivity.
Qed.

Lemma recognize_spec (models : dict Model)
    (items : list (Z * (matrix * list nat))) :
  recognize models items =
  (map (row_of models) items, map (guess_of models) items).
Proof. unfold recognize. apply recognize_loop_spec. Qed.

Lemma recognize_row_probdict (x : matrix) (ls : list nat)
    (models : dict Model) :
  forall best_score probdict best_guess,
    NoDup (keys probdict ++ keys models) ->
    fst (recognize_row models x ls best_score probdict best_guess) =
    probdict ++ score_row models x ls.
Proof.
  induction models as [|[w m] models IH]; intros b d g Hnd; simpl.
  - rewrite app_nil_r. reflexivity.
  - assert (Hfresh : ~ In w (keys d)).
    { simpl in Hnd. apply NoDup_remove_2 in Hnd.
      intro H. apply Hnd. apply in_or_app. auto. }
    assert (Hnd' : NoDup (keys (d ++ [(w, cell_score m x ls)]) ++ keys models)).
    { unfold keys in *. rewrite map_app, <- app_assoc. exact Hnd. }
    rewrite (dict_set_fresh w _ d Hfresh).
    destruct (float_gt (cell_score m x ls) b);
      rewrite (IH _ _ _ Hnd'), <- app_assoc; reflexivity.
Qed.

Lemma row_of_score_row (models : dict Model) (it : Z * (matrix * list nat)) :
  NoDup (keys models) ->
  row_of models it = score_row models (fst (snd it)) (snd (snd it)).
Proof.
  intros Hnd. unfold row_of.
  rewrite recognize_row_probdict; [reflexivity|exact Hnd].
Qed.

(** Every cell of a row built by the inner loop was there before or is the
    cell of a model of the mapping. *)
Lemma recognize_row_cells (x : matrix) (ls : list nat) (models : dict Model) :
  forall best_score probdict best_guess w s,
    In (w, s) (fst (recognize_row models x ls best_score probdict best_guess)) ->
    In (w, s) probdict \/
    exists m, In (w, m) models /\ s = cell_score m x ls.
Proof.
  induction models as [|[w0 m0] models IH]; intros b d g w s H; simpl in H.
  - auto.
  - assert (H' : In (w, s) (dict_set w0 (cell_score m0 x ls) d) \/
                 exists m, In (w, m) models /\ s = cell_score m x ls)
      by (destruct (float_gt (cell_score m0 x ls) b); eapply IH; eauto).
    destruct H' as [H'|(m & Hm & ->)].
    + apply dict_set_in in H'. destruct H' as [[-> ->]|H']; [|auto].
      right. exists m0. simpl. auto.
    + right. exists m. simpl. auto.
Qed.

(** The running best of the inner loop: the guess is the first word, in
    the order of the mapping, whose cell no other cell exceeds, unless no
    cell exceeds the initial best score, in which case the initial guess
    stays. *)
Lemma recognize_row_guess (x : matrix) (ls : list nat) (models : dict Model) :
  forall b0 d g0,
    exists b,
      (forall w m, In (w, m) models -> float_gt (cell_score m x ls) b = false) /\
      ((b = b0 /\ snd (recognize_row models x ls b0 d g0) = g0) \/
       exists pre w m post,
         models = pre ++ (w, m) :: post /\
         snd (recognize_row models x ls b0 d g0) = w /\
         b = cell_score m x ls /\
         float_gt b b0 = true /\
         forall w' m', In (w', m') pre ->
           PrimFloat.leb b (cell_score m' x ls) = false).
Proof.
  induction models as [|[w m] models IH]; intros b0 d g0; simpl.
  - exists b0. split; [intros ? ? []|left; auto].
  - set (s := cell_score m x ls). set (d' := dict_set w s d).
    destruct (float_gt s b0) eqn:Eb.
    + destruct (IH s d' w) as (b & A & B).
      assert (Hsb : float_gt s b = false /\ (b = s \/ float_gt b s = true)).
      { destruct B as [[-> _]|(pre & w' & m' & post & _ & _ & _ & Hb & _)].
        - split; [apply float_gt_irrefl|auto].
        - split; [|auto]. destruct (float_gt s b) eqn:C; [|reflexivity].
          rewrite <- (float_gt_irrefl s). symmetry.
          eapply float_gt_trans; eauto. }
      destruct Hsb as [Hsb Hbs]. exists b. split.
      * intros w' m' [H|H]; [inversion H; subst; exact Hsb|eauto].
      * right.
        destruct B as [[-> Hg]|(pre & w' & m' & post & -> & Hg & -> & Hb & Hpre)].
        -- exists [], w, m, models. repeat split; auto. intros ? ? [].
        -- exists ((w, m) :: pre), w', m', post.
           repeat split; auto.
           ++ eapply float_gt_trans; eauto.
           ++ intros w'' m'' [H|H]; [|eauto].
              inversion H; subst w'' m''. fold s.
              destruct (PrimFloat.leb (cell_score m' x ls) s) eqn:C;
                [|reflexivity].
              rewrite <- (float_gt_irrefl s). symmetry.
              eapply float_ge_gt_trans; eauto.
    + destruct (IH b0 d' g0) as (b & A & B). exists b. split.
      * intros w' m' [H|H]; [|eauto]. inversion H; subst w' m'. fold s.
        destruct B as [[-> _]|(pre & w' & m' & post & _ & _ & _ & Hb & _)];
          [assumption|].
        destruct (float_gt s b) eqn:C; [|reflexivity].
        rewrite <- Eb. symmetry. eapply float_gt_trans; eauto.
      * destruct B as [[-> Hg]|(pre & w' & m' & post & -> & Hg & -> & Hb & Hpre)];
          [left; auto|right].
        exists ((w, m) :: pre), w', m', post.
        repeat split; auto.
        intros w'' m'' [H|H]; [|eauto].
        inversion H; subst w'' m''. fold s.
        destruct (PrimFloat.leb (cell_score m' x ls) s) eqn:C; [|reflexivity].
        rewrite <- Eb. symmetry. eapply float_ge_gt_trans; eauto.
Qed.

End Recognizer.

Section RecognizerProperties.

Context {lib : Collaborators}.

(** C7. [recognize] returns one score row and one guess per test item, in
    the order of the test items; the row of an item holds, for each trained
    word in the order of the model mapping, the score of the item under
    that word's model, and negative infinity where that scoring raised. *)
Theorem recognize_one_row_per_item (models : dict Model)
    (items : list (Z * (matrix * list nat))) :
  NoDup (keys models) ->
  List.length (fst (recognize models items)) = List.length items /\
  List.length (snd (recognize models items)) = List.length items /\
  fst (recognize models items) =
    map (fun it => score_row models (fst (snd it)) (snd (snd it))) items /\
  snd (recognize models items) = map (guess_of models) items /\
  (forall w m x ls e,
     In (w, m) models -> hmm_score m x ls = Raise e ->
     In (w, neg_infinity) (score_row models x ls)).
Proof.
  intros Hnd. rewrite recognize_spec. simpl. rewrite !length_map.
  repeat split.
  - apply map_ext. intros it. apply row_of_score_row. exact Hnd.
  - intros w m x ls e Hin He. unfold score_row.
    apply in_map_iff. exists (w, m). split; [|exact Hin].
    simpl. unfold cell_score. rewrite He. reflexivity.
Qed.

(** C4 (amended). For a test item that some model scores above negative
    infinity, the guess is a word of the item's row whose score no cell of
    the row exceeds, and every word before it in the row has a score that
    is not even equal to it: the guess is the first arg max of the row. *)
Theorem recognize_guess_is_first_argmax (models : dict Model)
    (items : list (Z * (matrix * list nat)))
    (i : nat) (id : Z) (x : matrix) (ls : list nat) :
  NoDup (keys models) ->
  nth_error items i = Some (id, (x, ls)) ->
  (exists w m,
     In (w, m) models /\ float_gt (cell_score m x ls) neg_infinity = true) ->
  exists g s pre post,
    nth_error (snd (recognize models items)) i = Some g /\
    nth_error (fst (recognize models items)) i = Some (pre ++ (g, s) :: post) /\
    guess_is_argmax (pre ++ (g, s) :: post) g /\
    (forall w' s', In (w', s') pre -> PrimFloat.leb s s' = false).
Proof.
  intros Hnd Hi (w0 & m0 & Hin0 & Hgt0).
  rewrite recognize_spec. simpl.
  rewrite !nth_error_map, Hi. simpl.
  rewrite (row_of_score_row models _ Hnd). unfold guess_of. simpl.
  destruct (recognize_row_guess x ls models neg_infinity [] EmptyString)
    as (b & A & B).
  destruct B as [[-> _]|(pre & w & m & post & Hm & Hg & Hb & _ & Hpre)].
  - rewrite (A w0 m0 Hin0) in Hgt0. discriminate.
  - set (cell := fun wm : string * Model =>
                   (fst wm, cell_score (snd wm) x ls)).
    assert (Hrow : score_row models x ls =
                   map cell pre ++ (w, b) :: map cell post).
    { unfold score_row. fold cell. rewrite Hm, map_app. simpl.
      rewrite Hb. reflexivity. }
    assert (Hcells : forall w' s', In (w', s') (score_row models x ls) ->
                                   float_gt s' b = false).
    { intros w' s' H. unfold score_row in H. apply in_map_iff in H.
      destruct H as ([w'' m''] & E & H). inversion E; subst. eauto. }
    exists w, b, (map cell pre), (map cell post).
    rewrite Hg, <- Hrow. repeat split.
    + exists b. split; [|exact Hcells].
      apply dict_get_in_nodup.
      * unfold keys, score_row. rewrite map_map. simpl. exact Hnd.
      * rewrite Hrow. apply in_elt.
    + intros w' s' H. apply in_map_iff in H.
      destruct H as ([w'' m''] & E & H). inversion E; subst w' s'.
      simpl. eauto.
Qed.

(** C9. For a test item that no model scores above negative infinity
    (every cell of its row is negative infinity, or there is no model), a
    row is still appended and the guess is the empty string; the empty
    string being no trained word, the guess is not a key of the model
    mapping. *)
Theorem recognize_unscored_item_guesses_empty (models : dict Model)
    (items : list (Z * (matrix * list nat)))
    (i : nat) (id : Z) (x : matrix) (ls : list nat) :
  nth_error items i = Some (id, (x, ls)) ->
  (forall w m, In (w, m) models -> cell_score m x ls = neg_infinity) ->
  nth_error (snd (recognize models items)) i = Some EmptyString /\
  (exists row,
     nth_error (fst (recognize models items)) i = Some row /\
     forall w s, In (w, s) row -> In w (keys models) /\ s = neg_infinity) /\
  (~ In EmptyString (keys models) ->
   forall g, nth_error (snd (recognize models items)) i = Some g ->
             ~ In g (keys models)).
Proof.
  intros Hi Hcells.
  assert (Hg : nth_error (snd (recognize models items)) i = Some EmptyString).
  { rewrite recognize_spec. simpl. rewrite nth_error_map, Hi. simpl.
    unfold guess_of. simpl.
    destruct (recognize_row_guess x ls models neg_infinity [] EmptyString)
      as (b & _ & [[_ ->]|(pre & w & m & post & Hm & _ & Hb & Hgt & _)]);
      [reflexivity|].
    rewrite Hb, (Hcells w m) in Hgt; [discriminate|].
    rewrite Hm. apply in_elt. }
  split; [exact Hg|]. split.
  - exists (row_of models (id, (x, ls))). split.
    + rewrite recognize_spec. simpl. rewrite nth_error_map, Hi. reflexivity.
    + intros w s H. unfold row_of in H. simpl in H.
      apply recognize_row_cells in H.
      destruct H as [[]|(m & Hm & ->)]. split; [|eauto].
      apply (in_map fst) in Hm. exact Hm.
  - intros Hk g Hg'. rewrite Hg in Hg'. inversion Hg'; subst. exact Hk.
Qed.

End RecognizerProperties.

Lemma example_models_nodup : NoDup (keys example_models).
Proof.
  unfold keys. simpl.
  repeat constructor; simpl; intuition discriminate.
Defined.

(** C4 (as stated) fails: when no model can score the item, the row is
    [FISH: -inf, BOOK: -inf] and the guess is the empty string, which is no
    key of the row, let alone its arg max. *)
Lemma recognize_guess_not_argmax :
  ~ guesses_are_argmax (lib := lib_never_scores)
      example_models example_test_set.
Proof.
  intros H.
  destruct (H 0%nat
              [("FISH"%string, neg_infinity); ("BOOK"%string, neg_infinity)]
              EmptyString eq_refl eq_refl) as (s & Hs & _).
  vm_compute in Hs. discriminate Hs.
Qed.

Lemma recognize_guess_is_first_argmax_witness :
  exists g s pre post,
    nth_error (snd (recognize (lib := lib_all_fit)
                      example_models example_test_set)) 0 = Some g /\
    nth_error (fst (recognize (lib := lib_all_fit)
                      example_models example_test_set)) 0
      = Some (pre ++ (g, s) :: post) /\
    guess_is_argmax (pre ++ (g, s) :: post) g /\
    (forall w' s', In (w', s') pre -> PrimFloat.leb s s' = false).
Proof.
  apply (recognize_guess_is_first_argmax (lib := lib_all_fit)
           example_models example_test_set 0 0 [[1%float]; [2%float]] [2%nat]).
  - exact example_models_nodup.
  - reflexivity.
  - exists "FISH"%string, (mkToy 4 (fst (concatenated fish_sequences))
                                   (snd (concatenated fish_sequences))).
    split; [left; reflexivity|vm_compute; reflexivity].
Defined.

Lemma recognize_one_row_per_item_witness :
  List.length (fst (recognize (lib := lib_never_scores)
                      example_models example_test_set)) = 1%nat /\
  List.length (snd (recognize (lib := lib_never_scores)
                      example_models example_test_set)) = 1%nat /\
  fst (recognize (lib := lib_never_scores) example_models example_test_set) =
    map (fun it => score_row (lib := lib_never_scores) example_models
                     (fst (snd it)) (snd (snd it))) example_test_set /\
  snd (recognize (lib := lib_never_scores) example_models example_test_set) =
    map (guess_of (lib := lib_never_scores) example_models) example_test_set /\
  (forall w m x ls e,
     In (w, m) example_models ->
     hmm_score (Collaborators := lib_never_scores) m x ls = Raise e ->
     In (w, neg_infinity)
        (score_row (lib := lib_never_scores) example_models x ls)).
Proof.
  apply (recognize_one_row_per_item (lib := lib_never_scores)
           example_models example_test_set).
  exact example_models_nodup.
Defined.

Lemma recognize_unscored_item_guesses_empty_witness :
  nth_error (snd (recognize (lib := lib_never_scores)
                    example_models example_test_set)) 0 = Some EmptyString /\
  (exists row,
     nth_error (fst (recognize (lib := lib_never_scores)
                       example_models example_test_set)) 0 = Some row /\
     forall w s, In (w, s) row ->
                 In w (keys example_models) /\ s = neg_infinity) /\
  (~ In EmptyString (keys example_models) ->
   forall g,
     nth_error (snd (recognize (lib := lib_never_scores)
                       example_models example_test_set)) 0 = Some g ->
     ~ In g (keys example_models)).
Proof.
  apply (recognize_unscored_item_guesses_empty (lib := lib_never_scores)
           example_models example_test_set 0 0 [[1%float]; [2%float]] [2%nat]).
  - reflexivity.
  - intros w m _. reflexivity.
Defined.

(** ** What [select] leaves of the selection context *)

Lemma same_config_refl (s : Selector) : same_config s s.
Proof. unfold same_config. tauto. Qed.

Lemma same_config_eq (s s' : Selector) : s' = s -> same_config s s'.
Proof. intros ->. apply same_config_refl. Qed.

Lemma same_config_trans (s1 s2 s3 : Selector) :
  same_config s1 s2 -> same_config s2 s3 -> same_config s1 s3.
Proof. unfold same_config. intuition congruence. Qed.

Lemma keeps_config_frame_pure {A} (m : M A) : frame_pure m -> keeps_config m.
Proof. intros [H _] st. apply same_config_eq. apply H. Qed.

Lemma keeps_config_bind {A B} (m : M A) (k : A -> M B) :
  keeps_config m -> (forall a, keeps_config (k a)) -> keeps_config (bind m k).
Proof.
  intros Hm Hk st. unfold bind. specialize (Hm st).
  destruct (m st) as [[a|e] st']; simpl in *; [|assumption].
  eapply same_config_trans; [exact Hm|apply Hk].
Qed.

Lemma keeps_config_try_except {A} (body handler : M A) :
  keeps_config body -> keeps_config handler ->
  keeps_config (try_except body handler).
Proof.
  intros Hb Hh st. unfold try_except. specialize (Hb st).
  destruct (body st) as [[a|e] st']; simpl in *; [assumption|].
  eapply same_config_trans; [exact Hb|apply Hh].
Qed.

Lemma keeps_config_set_X_lengths (x : matrix) (ls : list nat) :
  keeps_config (set_X_lengths x ls).
Proof. intros st. unfold same_config. simpl. tauto. Qed.

Lemma frame_pure_read_local {A} (v : option A) : frame_pure (read_local v).
Proof. destruct v; [apply frame_pure_ret|apply frame_pure_raise]. Qed.

Lemma frame_pure_try_except {A} (body handler : M A) :
  frame_pure body -> frame_pure handler ->
  frame_pure (try_except body handler).
Proof.
  intros [Hbs Hbr] [Hhs Hhr]. split.
  - intros st. unfold try_except. specialize (Hbs st).
    destruct (body st) as [[a|e] st']; simpl in *; [assumption|].
    rewrite Hhs. assumption.
  - intros st1 st2 E. unfold try_except.
    pose proof (Hbr st1 st2 E) as R.
    pose proof (Hbs st1) as S1. pose proof (Hbs st2) as S2.
    destruct (body st1) as [[a1|e1] st1'], (body st2) as [[a2|e2] st2'];
      simpl in *; try discriminate; [assumption|].
    apply Hhr. congruence.
Qed.

Section ContextFrame.

Context {lib : Collaborators}.

Lemma frame_pure_fallback : frame_pure fallback.
Proof. unfold fallback. frame_pure_steps. Qed.

Lemma frame_pure_SelectorConstant_select : frame_pure SelectorConstant_select.
Proof. unfold SelectorConstant_select. frame_pure_steps. Qed.

Lemma frame_pure_finish (r : float * option Z) :
  frame_pure (let (_, best_n) := r in n <- read_local best_n ;; base_model n).
Proof.
  destruct r as [b bn].
  apply frame_pure_bind; [apply frame_pure_read_local|].
  intro. apply frame_pure_base_model.
Qed.

Lemma frame_pure_SelectorBIC_select : frame_pure SelectorBIC_select.
Proof.
  apply frame_pure_try_except; [|apply frame_pure_fallback].
  unfold SelectorBIC_search.
  apply frame_pure_bind; [apply frame_pure_get_self|intro s].
  apply frame_pure_bind; [|apply frame_pure_finish].
  apply frame_pure_search_loop. apply frame_pure_BIC_score.
Qed.

Lemma frame_pure_SelectorDIC_select : frame_pure SelectorDIC_select.
Proof.
  apply frame_pure_try_except; [|apply frame_pure_fallback].
  unfold SelectorDIC_search.
  apply frame_pure_bind; [apply frame_pure_get_self|intro s].
  apply frame_pure_bind; [|apply frame_pure_finish].
  apply frame_pure_search_loop. apply frame_pure_DIC_score.
Qed.

Lemma keeps_config_search_loop (better : float -> float -> bool)
    (score_fn : Z -> M float) :
  (forall n, keeps_config (score_fn n)) ->
  forall ns b0 bn0, keeps_config (search_loop better score_fn ns b0 bn0).
Proof.
  intros Hs ns. induction ns as [|n ns IH]; intros b0 bn0; simpl.
  - apply keeps_config_frame_pure, frame_pure_ret.
  - apply keeps_config_bind; [apply Hs|].
    intro s. destruct (better s b0); apply IH.
Qed.

Lemma keeps_config_CV_folds (n : Z) (folds : list (list nat * list nat)) :
  forall scores, keeps_config (CV_folds n folds scores).
Proof.
  induction folds as [|[tr te] folds IH]; intros scores; simpl.
  - apply keeps_config_frame_pure, frame_pure_ret.
  - apply keeps_config_bind;
      [apply keeps_config_frame_pure, frame_pure_get_self|intro s].
    apply keeps_config_bind;
      [apply keeps_config_frame_pure, frame_pure_lift|intros [trX trL]].
    apply keeps_config_bind; [apply keeps_config_set_X_lengths|intros _].
    apply keeps_config_bind;
      [apply keeps_config_frame_pure, frame_pure_base_model|intro model].
    apply keeps_config_bind;
      [apply keeps_config_frame_pure, frame_pure_lift|intros [teX teL]].
    apply keeps_config_bind;
      [apply keeps_config_frame_pure, frame_pure_score_of|intro sc].
    apply IH.
Qed.

Lemma keeps_config_CV_score (n : Z) : keeps_config (CV_score n).
Proof.
  unfold CV_score.
  apply keeps_config_bind;
    [apply keeps_config_frame_pure, frame_pure_get_self|intro s].
  apply keeps_config_bind;
    [apply keeps_config_frame_pure, frame_pure_lift|intro folds].
  apply keeps_config_bind; [apply keeps_config_CV_folds|intro scores].
  apply keeps_config_frame_pure, frame_pure_ret.
Qed.

Lemma keeps_config_SelectorCV_select : keeps_config SelectorCV_select.
Proof.
  apply keeps_config_try_except;
    [|apply keeps_config_frame_pure, frame_pure_fallback].
  unfold SelectorCV_search.
  apply keeps_config_bind;
    [apply keeps_config_frame_pure, frame_pure_get_self|intro s].
  apply keeps_config_bind;
    [|intro r; apply keeps_config_frame_pure, frame_pure_finish].
  apply keeps_config_search_loop. apply keeps_config_CV_score.
Qed.

(** X13. [select] leaves the vocabulary, the word and its sequences, the
    search bounds, the fallback state count, the random seed and the
    verbosity as they were, for every selector; for [SelectorConstant],
    [SelectorBIC] and [SelectorDIC] it leaves the whole selector object,
    [X] and [lengths] included, as it was. *)
Theorem select_frame (k : selector_kind) (st : State) :
  same_config (self st) (self (snd (select k st))) /\
  match k with
  | CV => True
  | _ => self (snd (select k st)) = self st /\
         same_context (self st) (self (snd (select k st)))
  end.
Proof.
  assert (P : forall m : M (option Model),
             frame_pure m ->
             same_config (self st) (self (snd (m st))) /\
             self (snd (m st)) = self st /\
             same_context (self st) (self (snd (m st)))).
  { intros m Hm. pose proof (proj1 Hm st) as E.
    split; [apply same_config_eq; exact E|].
    split; [exact E|]. rewrite E. unfold same_context. tauto. }
  destruct k; simpl.
  - apply P, frame_pure_SelectorConstant_select.
  - apply P, frame_pure_SelectorBIC_select.
  - apply P, frame_pure_SelectorDIC_select.
  - split; [apply keeps_config_SelectorCV_select|exact I].
Qed.

End ContextFrame.

(** [SelectorCV.select] does not preserve the selection context: at FISH
    with three folds it returns with [X] holding two frames where there
    were four. *)
Lemma SelectorCV_select_changes_context :
  ~ select_preserves_context (lib := lib_all_fit) CV fish_state.
Proof.
  unfold select_preserves_context, same_context.
  intros (_ & HX & _). vm_compute in HX. discriminate HX.
Qed.

(** ** Cross-validation clobbers the selector's data *)

Section CrossValidation.

Context {lib : Collaborators}.

(** One turn of the loop over the folds: the training part of the fold is
    stored in the selector before the rest of the folds is run. *)
Lemma CV_folds_step (n : Z) (tr te : list nat)
    (rest : list (list nat * list nat)) (scores : list float)
    (st : State) (l : list float) (st' : State) :
  CV_folds n ((tr, te) :: rest) scores st = (Ok l, st') ->
  exists st1 scores',
    combine_sequences tr (sequences (self st))
      = Ok (X (self st1), lengths (self st1)) /\
    sequences (self st1) = sequences (self st) /\
    CV_folds n rest scores' st1 = (Ok l, st').
Proof.
  simpl. unfold bind at 1. unfold get_self at 1.
  unfold bind at 1. unfold lift at 1.
  destruct (combine_sequences tr (sequences (self st))) as [[trX trL]|e];
    [|discriminate].
  unfold bind at 1. unfold set_X_lengths at 1.
  unfold bind at 1. rewrite base_model_run. simpl.
  unfold bind at 1. unfold lift at 1.
  destruct (combine_sequences te (sequences (self st))) as [[teX teL]|e];
    [|discriminate].
  unfold bind at 1.
  match goal with
  | |- context [score_of ?m ?x ?ls ?s] =>
      destruct (score_of m x ls s) as [[sc|e] st1] eqn:Es;
      [|discriminate];
      pose proof (frame_pure_self _ _ _ _ (frame_pure_score_of m x ls) Es)
        as S1
  end.
  intros E. exists st1, (scores ++ [sc]). rewrite S1. simpl. auto.
Qed.

(** A completed pass over the folds leaves the training part of the last
    fold in the selector. *)
Lemma CV_folds_last (n : Z) (tr te : list nat)
    (pre : list (list nat * list nat)) :
  forall scores st l st',
    CV_folds n (pre ++ [(tr, te)]) scores st = (Ok l, st') ->
    combine_sequences tr (sequences (self st))
      = Ok (X (self st'), lengths (self st')).
Proof.
  induction pre as [|[tr0 te0] pre IH]; intros scores st l st' E.
  - apply CV_folds_step in E.
    destruct E as (st1 & scores' & Hc & _ & E). simpl in E.
    inversion E; subst. exact Hc.
  - simpl app in E. apply CV_folds_step in E.
    destruct E as (st1 & scores' & _ & Hs & E).
    rewrite <- Hs. eapply IH. exact E.
Qed.

Lemma CV_score_last (n : Z) (st : State) (s : float) (st' : State)
    (pre : list (list nat * list nat)) (tr te : list nat) :
  CV_score n st = (Ok s, st') ->
  kfold_split (List.length (sequences (self st))) = Ok (pre ++ [(tr, te)]) ->
  combine_sequences tr (sequences (self st))
    = Ok (X (self st'), lengths (self st')).
Proof.
  unfold CV_score, bind, get_self, lift. intros E Hk. rewrite Hk in E.
  destruct (CV_folds n _ [] st) as [[l|e] st1] eqn:Ef; [|discriminate].
  inversion E; subst. eapply CV_folds_last. exact Ef.
Qed.

(** A completed search ends with the scoring of its last candidate. *)
Lemma search_loop_last (better : float -> float -> bool)
    (score_fn : Z -> M float) (n : Z) :
  (forall m, keeps_config (score_fn m)) ->
  forall pre b0 bn0 st r st',
    search_loop better score_fn (pre ++ [n]) b0 bn0 st = (Ok r, st') ->
    exists st0 s,
      same_config (self st) (self st0) /\ score_fn n st0 = (Ok s, st').
Proof.
  intros Hk pre. induction pre as [|m pre IH]; intros b0 bn0 st r st' E;
    simpl in E; unfold bind in E.
  - destruct (score_fn n st) as [[s|e] st1] eqn:Es; [|discriminate].
    exists st, s. split; [apply same_config_refl|].
    destruct (better s b0); inversion E; subst; assumption.
  - pose proof (Hk m st) as C.
    destruct (score_fn m st) as [[s|e] st1] eqn:Es; [|discriminate].
    simpl in C.
    assert (H : exists st0 s0,
               same_config (self st1) (self st0) /\
               score_fn n st0 = (Ok s0, st'))
      by (destruct (better s b0); eapply IH; exact E).
    destruct H as (st0 & s0 & C0 & E0).
    exists st0, s0. split; [|exact E0].
    eapply same_config_trans; eauto.
Qed.

(** When the search of [SelectorCV.select] completes, the model returned is
    fitted on whatever the last fold of the last candidate left in the
    selector: the training part of that fold. *)
Lemma SelectorCV_search_fits_last_fold (st : State) (r : option Model)
    (st1 : State) (pre : list (list nat * list nat)) (tr te : list nat) :
  SelectorCV_search st = (Ok r, st1) ->
  kfold_split (List.length (sequences (self st))) = Ok (pre ++ [(tr, te)]) ->
  exists n x ls,
    combine_sequences tr (sequences (self st)) = Ok (x, ls) /\
    X (self st1) = x /\ lengths (self st1) = ls /\
    SelectorCV_select st =
      (Ok (match hmm_fit n (random_state (self st)) x ls with
           | Ok m => Some m
           | Raise _ => None
           end), st1).
Proof.
  intros E Hk. unfold SelectorCV_select, try_except. rewrite E.
  unfold SelectorCV_search, bind, get_self in E.
  destruct (search_loop _ _ _ _ _ _) as [[[b bn]|e] st2] eqn:El;
    [|discriminate].
  destruct bn as [n|]; [|discriminate]. simpl in E.
  rewrite base_model_run in E. inversion E; subst r st1. clear E.
  pose proof (keeps_config_search_loop float_gt CV_score keeps_config_CV_score
                (range_incl (min_n_components (self st))
                            (max_n_components (self st)))
                neg_infinity None st) as C.
  rewrite El in C. simpl in C.
  destruct (range_incl (min_n_components (self st))
                       (max_n_components (self st))) as [|c cs] eqn:Er;
    [discriminate|].
  destruct (exists_last (l := c :: cs)) as (ns & nl & Hns); [discriminate|].
  rewrite Hns in El.
  apply (search_loop_last float_gt CV_score nl keeps_config_CV_score) in El.
  destruct El as (st0 & s & C0 & E0).
  assert (Hseq : sequences (self st0) = sequences (self st))
    by (unfold same_config in C0; tauto).
  rewrite <- Hseq in Hk.
  pose proof (CV_score_last nl st0 s st2 pre tr te E0 Hk) as Hc.
  rewrite Hseq in Hc.
  exists n, (X (self st2)), (lengths (self st2)).
  simpl. repeat split; [exact Hc|].
  unfold fit_outcome.
  replace (random_state (self st2)) with (random_state (self st))
    by (unfold same_config in C; symmetry; tauto).
  reflexivity.
Qed.

End CrossValidation.

(** C8, at FISH with three folds: after [SelectorCV.select] the selector's
    [X] and [lengths] are the training part of the last fold (the first two
    sequences), no longer the word's four frames as before the call. *)
Example SelectorCV_select_overwrites_X :
  X (self (snd (SelectorCV_select (lib := lib_all_fit) fish_state)))
    = [[1%float]; [2%float]] /\
  lengths (self (snd (SelectorCV_select (lib := lib_all_fit) fish_state)))
    = [1%nat; 1%nat] /\
  X (self fish_state) = [[1%float]; [2%float]; [3%float]; [4%float]] /\
  lengths (self fish_state) = [1%nat; 1%nat; 2%nat].
Proof. repeat split; vm_compute; reflexivity. Qed.

(** C2, at FISH with three folds: the search completes, and the model that
    [SelectorCV.select] returns was fitted on the training part of the last
    fold (two frames), not on the word's full data (four frames). *)
Theorem SelectorCV_select_returns_fold_fit :
  (exists r st1,
     SelectorCV_search (lib := lib_all_fit) fish_state = (Ok r, st1)) /\
  fst (SelectorCV_select (lib := lib_all_fit) fish_state)
    = Ok (Some (mkToy 4 [[1%float]; [2%float]] [1%nat; 1%nat])) /\
  fst (concatenated fish_sequences)
    = [[1%float]; [2%float]; [3%float]; [4%float]] /\
  snd (concatenated fish_sequences) = [1%nat; 1%nat; 2%nat].
Proof.
  split; [do 2 eexists; vm_compute; reflexivity|].
  repeat split; vm_compute; reflexivity.
Qed.

(** ** The recognizer on the example vocabulary *)

(** The four-state FISH model scores the item at -4, the two-state BOOK
    model at -10: the guess is FISH. *)
Example recognize_example :
  recognize (lib := lib_all_fit) example_models example_test_set
  = ([[("FISH"%string, (-4)%float); ("BOOK"%string, (-10)%float)]],
     ["FISH"%string]).
Proof. vm_compute. reflexivity. Qed.

(** Two models with the same score: the first of the mapping is guessed. *)
Example recognize_tie :
  snd (recognize (lib := lib_all_fit)
         [("BOOK"%string, mkToy 4 [] []); ("FISH"%string, mkToy 5 [] [])]
         example_test_set)
  = ["BOOK"%string].
Proof. vm_compute. reflexivity. Qed.

(** Without any model the row is empty and the guess is the empty string. *)
Example recognize_no_models :
  recognize (lib := lib_all_fit) [] example_test_set
  = ([[]], [EmptyString]).
Proof. reflexivity. Qed.

(** * Further properties of the selectors *)

(** ** When the search cannot choose *)

Lemma float_nan_not_gt_neg_infinity (x : float) :
  float_gt (x - nan)%float neg_infinity = false.
Proof.
  unfold float_gt. rewrite ltb_spec, sub_spec. unfold SF64sub, SFsub.
  change (Prim2SF nan) with S754_nan.
  destruct (Prim2SF x); reflexivity.
Qed.

Lemma range_incl_empty (a b : Z) : b < a -> range_incl a b = [].
Proof.
  intros H. unfold range_incl.
  replace (Z.to_nat (b + 1 - a)) with 0%nat by lia. reflexivity.
Qed.

Section Fallbacks.

Context {lib : Collaborators}.

Lemma fallback_is_SelectorConstant_select (st : State) :
  fallback st = SelectorConstant_select st.
Proof. reflexivity. Qed.

(** A search whose loop never accepts a candidate ends in the handler, and
    so does one that raises. *)
Lemma search_without_best (better : float -> float -> bool)
    (score_fn : Z -> M float) (init : float) (st : State) :
  (forall n, frame_pure (score_fn n)) ->
  (match search_loop better score_fn
           (range_incl (min_n_components (self st))
                       (max_n_components (self st))) init None st with
   | (Ok (_, Some _), _) => False
   | _ => True
   end) ->
  exists st',
    try_except
      (s <- get_self ;;
       ' (_, best_n) <- search_loop better score_fn
             (range_incl (min_n_components s) (max_n_components s))
             init None ;;
       n <- read_local best_n ;;
       base_model n)
      fallback st
    = (Ok (fit_outcome (self st) (n_constant (self st))), st') /\
    self st' = self st.
Proof.
  intros Hp H. unfold try_except, bind at 1. unfold get_self at 1.
  unfold bind at 1.
  pose proof (proj1 (frame_pure_search_loop better score_fn Hp
                       (range_incl (min_n_components (self st))
                                   (max_n_components (self st)))
                       init None) st) as S2.
  destruct (search_loop _ _ _ _ _ _) as [[[b [n|]]|e] st2]; simpl in *;
    [destruct H| |];
    rewrite fallback_run, S2; eexists; split; reflexivity.
Qed.

(** X1. When the smallest state count exceeds the largest, there is no
    candidate, and each adaptive selector does exactly what
    [SelectorConstant] does. *)
Theorem select_empty_range (k : selector_kind) (st : State) :
  max_n_components (self st) < min_n_components (self st) ->
  select k st = SelectorConstant_select st.
Proof.
  intros H. pose proof (range_incl_empty _ _ H) as Hr.
  destruct k; simpl; [reflexivity| | |];
    unfold SelectorBIC_select, SelectorBIC_search,
           SelectorDIC_select, SelectorDIC_search,
           SelectorCV_select, SelectorCV_search,
           try_except, bind, get_self;
    rewrite Hr; reflexivity.
Qed.

Lemma CV_score_split_raises (n : Z) (st : State) (e : exn) :
  kfold_split (List.length (sequences (self st))) = Raise e ->
  CV_score n st = (Raise e, st).
Proof.
  intros H. unfold CV_score, bind, get_self, lift. rewrite H. reflexivity.
Qed.

(** X2. When the folds cannot be built (too few sequences for [KFold]),
    [SelectorCV.select] does exactly what [SelectorConstant] does: one fit
    at [n_constant] on the word's untouched data. *)
Theorem SelectorCV_select_without_folds (st : State) (e : exn) :
  kfold_split (List.length (sequences (self st))) = Raise e ->
  SelectorCV_select st = SelectorConstant_select st.
Proof.
  intros H. unfold SelectorCV_select, try_except, SelectorCV_search.
  unfold bind at 1. unfold get_self at 1. unfold bind at 1.
  destruct (range_incl (min_n_components (self st))
                       (max_n_components (self st))) as [|n ns].
  - reflexivity.
  - simpl. unfold bind at 1. rewrite (CV_score_split_raises n st e H).
    reflexivity.
Qed.

(** X3. When no candidate of the range has a BIC below positive infinity
    (each is infinite or nan), no candidate is ever accepted and
    [SelectorBIC.select] returns the fit at [n_constant]. *)
Theorem SelectorBIC_no_finite_BIC_falls_back (st : State) :
  (forall n bic,
     min_n_components (self st) <= n <= max_n_components (self st) ->
     BIC_is (self st) n bic -> PrimFloat.ltb bic infinity = false) ->
  exists st',
    SelectorBIC_select st =
      (Ok (fit_outcome (self st) (n_constant (self st))), st') /\
    self st' = self st.
Proof.
  intros H.
  apply (search_without_best float_lt BIC_score infinity st
           frame_pure_BIC_score).
  destruct (search_loop _ _ _ _ _ _) as [[[b [n|]]|e] st2] eqn:El; auto.
  apply (search_loop_ok float_lt PrimFloat.leb BIC_score float_ltb_irrefl
           float_ltb_trans float_leb_ltb_trans frame_pure_BIC_score) in El.
  destruct El as [_ [[_ E]|(pre & n' & post & Hr & _ & Hn & Hb & _)]];
    [discriminate|].
  unfold float_lt in Hb. rewrite (H n' b) in Hb; [discriminate| |].
  - apply in_range_incl. rewrite Hr. apply in_elt.
  - apply BIC_score_is. exact Hn.
Qed.

(** X4. With no other word in the vocabulary, and [np.mean] of the empty
    list being nan, every DIC is nan: no candidate is accepted and
    [SelectorDIC.select] returns the fit at [n_constant]. *)
Theorem SelectorDIC_single_word_falls_back (st : State) :
  other_words (self st) = [] ->
  np_mean [] = nan ->
  exists st',
    SelectorDIC_select st =
      (Ok (fit_outcome (self st) (n_constant (self st))), st') /\
    self st' = self st.
Proof.
  intros Ho Hm.
  apply (search_without_best float_gt DIC_score neg_infinity st
           frame_pure_DIC_score).
  destruct (search_loop _ _ _ _ _ _) as [[[b [n|]]|e] st2] eqn:El; auto.
  apply (search_loop_ok float_gt (fun a b => PrimFloat.leb b a) DIC_score)
    in El.
  - destruct El as [_ [[_ E]|(pre & n' & post & _ & _ & Hn & Hb & _)]];
      [discriminate|].
    apply DIC_score_is in Hn.
    destruct Hn as (model & logL & loganti & _ & _ & Hl & ->).
    unfold scored_against in Hl. rewrite Ho in Hl. inversion Hl; subst.
    rewrite Hm, float_nan_not_gt_neg_infinity in Hb. discriminate.
  - apply float_gt_irrefl.
  - apply float_gt_trans.
  - apply float_ge_gt_trans.
  - apply frame_pure_DIC_score.
Qed.

Lemma DIC_loganti_raises (model : Model) (this : string)
    (items : dict (matrix * list nat))
    (w : string) (sq : matrix) (len : list nat) (e : exn) :
  In (w, (sq, len))
     (filter (fun it => negb (String.eqb (fst it) this)) items) ->
  hmm_score model sq len = Raise e ->
  forall acc st,
    exists e', fst (DIC_loganti (Some model) this items acc st) = Raise e'.
Proof.
  intros Hin Hs.
  induction items as [|[w0 [sq0 len0]] rest IH]; intros acc st;
    simpl in *; [destruct Hin|].
  destruct (negb (String.eqb w0 this)).
  - unfold bind, score_of, lift.
    destruct (hmm_score model sq0 len0) as [sc|e0] eqn:E0; [|simpl; eauto].
    destruct Hin as [H|H]; [|apply IH; exact H].
    inversion H; subst. rewrite Hs in E0. discriminate.
  - apply IH. exact Hin.
Qed.

Lemma DIC_score_fails (n : Z) (st : State) :
  DIC_candidate_fails (self st) n ->
  exists e, fst (DIC_score n st) = Raise e.
Proof.
  intros H. unfold DIC_score, bind at 1. rewrite base_model_run.
  unfold bind at 1. unfold get_self at 1. simpl. unfold fit_outcome.
  destruct H as [(e & Hf)|(model & Hf & H)]; rewrite Hf; simpl.
  - unfold bind. simpl. eauto.
  - unfold bind at 1. unfold lift at 1.
    destruct (hmm_score model (X (self st)) (lengths (self st)))
      as [logL|e0] eqn:Es; [|simpl; eauto].
    destruct H as [(e & He)|(w & sq & len & e & Hin & He)];
      [discriminate|].
    unfold bind.
    match goal with
    | |- context [DIC_loganti ?m ?t ?i ?a ?s] =>
        destruct (DIC_loganti_raises model t i w sq len e Hin He a s)
          as (e' & E')
    end.
    destruct (DIC_loganti _ _ _ _ _) as [[l|e1] st1]; simpl in *;
      [discriminate|eauto].
Qed.

End Fallbacks.

(** ** The fits a search makes *)

Section FitCalls.

Context {lib : Collaborators}.

Lemma BIC_score_trace (n : Z) (st : State) :
  trace (snd (BIC_score n st)) = trace st ++ base_model_events (self st) n.
Proof.
  unfold BIC_score, bind at 1. rewrite base_model_run.
  unfold bind, get_self, score_of, lift, raise, ret. simpl.
  destruct (fit_outcome (self st) n) as [model|]; [|reflexivity].
  destruct (hmm_score model _ _); [|reflexivity].
  destruct (shape1 _); reflexivity.
Qed.

Lemma DIC_loganti_state (model : option Model) (this : string)
    (items : dict (matrix * list nat)) :
  forall acc st, snd (DIC_loganti model this items acc st) = st.
Proof.
  induction items as [|[w [sq len]] rest IH]; intros acc st; simpl;
    [reflexivity|].
  destruct (negb (String.eqb w this)); [|apply IH].
  unfold bind, score_of.
  destruct model as [m|]; [|reflexivity].
  unfold lift. destruct (hmm_score m sq len); [apply IH|reflexivity].
Qed.

Lemma DIC_score_trace (n : Z) (st : State) :
  trace (snd (DIC_score n st)) = trace st ++ base_model_events (self st) n.
Proof.
  unfold DIC_score, bind at 1. rewrite base_model_run.
  unfold bind at 1. unfold get_self at 1. simpl.
  unfold bind at 1, score_of.
  destruct (fit_outcome (self st) n) as [model|]; [|reflexivity].
  unfold lift at 1.
  destruct (hmm_score model _ _); [|reflexivity].
  unfold bind.
  match goal with
  | |- context [DIC_loganti ?m ?t ?i ?a ?s] =>
      pose proof (DIC_loganti_state m t i a s) as Hs;
      destruct (DIC_loganti m t i a s) as [[l|e] st1]
  end; simpl in *; subst; reflexivity.
Qed.

(** A completed search fitted each candidate once, in order. *)
Lemma search_loop_fit_calls (better : float -> float -> bool)
    (score_fn : Z -> M float) :
  (forall n, frame_pure (score_fn n)) ->
  (forall n st,
     trace (snd (score_fn n st)) = trace st ++ base_model_events (self st) n) ->
  forall ns b0 bn0 st r st',
    search_loop better score_fn ns b0 bn0 st = (Ok r, st') ->
    fit_calls (trace st') =
    fit_calls (trace st) ++ map (fit_call_at (self st)) ns.
Proof.
  intros Hp Ht ns.
  induction ns as [|n ns IH]; intros b0 bn0 st r st' E; simpl in E.
  - inversion E; subst. simpl. rewrite app_nil_r. reflexivity.
  - unfold bind in E. pose proof (Ht n st) as T.
    destruct (score_fn n st) as [[s|e] st1] eqn:Es; [|discriminate].
    pose proof (frame_pure_self _ _ _ _ (Hp n) Es) as S1. simpl in T.
    assert (H : fit_calls (trace st') =
                fit_calls (trace st1) ++ map (fit_call_at (self st1)) ns)
      by (destruct (better s b0); eapply IH; exact E).
    rewrite H, T, S1, fit_calls_app, fit_calls_base_model_events.
    simpl. rewrite <- app_assoc. reflexivity.
Qed.

(** X6. When the search of [SelectorBIC.select] or [SelectorDIC.select]
    completes, the fitting service was called once for each state count of
    the range, in ascending order, and once more for the chosen state
    count: the model returned is a second fit of the winner. *)
Theorem adaptive_select_fit_calls (k : selector_kind) (st : State)
    (r : option Model) (st1 : State) :
  k = BIC \/ k = DIC ->
  search k st = (Ok r, st1) ->
  exists n,
    min_n_components (self st) <= n <= max_n_components (self st) /\
    select k st = (Ok (fit_outcome (self st) n), st1) /\
    fit_calls (trace st1) =
      fit_calls (trace st) ++
      map (fit_call_at (self st))
          (range_incl (min_n_components (self st))
                      (max_n_components (self st)) ++ [n]).
Proof.
  intros Hk E.
  assert (G : forall (better : float -> float -> bool)
                     (score_fn : Z -> M float) (init : float),
             (forall n, frame_pure (score_fn n)) ->
             (forall n st,
                trace (snd (score_fn n st)) =
                trace st ++ base_model_events (self st) n) ->
             (forall b bn st2,
                search_loop better score_fn
                  (range_incl (min_n_components (self st))
                              (max_n_components (self st))) init None st
                = (Ok (b, Some bn), st2) ->
                min_n_components (self st) <= bn <= max_n_components (self st)) ->
             (s <- get_self ;;
              ' (_, best_n) <- search_loop better score_fn
                    (range_incl (min_n_components s) (max_n_components s))
                    init None ;;
              n <- read_local best_n ;;
              base_model n) st = (Ok r, st1) ->
             exists n,
               min_n_components (self st) <= n <= max_n_components (self st) /\
               (Ok r, st1) = (Ok (fit_outcome (self st) n), st1) /\
               fit_calls (trace st1) =
                 fit_calls (trace st) ++
                 map (fit_call_at (self st))
                     (range_incl (min_n_components (self st))
                                 (max_n_components (self st)) ++ [n])).
  { intros better score_fn init Hp Ht Hin E'.
    unfold bind at 1 in E'. unfold get_self at 1 in E'.
    unfold bind at 1 in E'.
    destruct (search_loop _ _ _ _ _ _) as [[[b [n|]]|e] st2] eqn:El;
      simpl in E'; try discriminate.
    pose proof (frame_pure_self _ _ _ _
                  (frame_pure_search_loop better score_fn Hp _ _ _) El) as S2.
    pose proof (search_loop_fit_calls better score_fn Hp Ht _ _ _ _ _ _ El)
      as F.
    unfold bind, ret in E'. rewrite base_model_run in E'.
    inversion E'; subst r st1.
    exists n. split; [eapply Hin; reflexivity|].
    rewrite S2. split; [reflexivity|]. simpl.
    rewrite fit_calls_app, fit_calls_base_model_events, F, map_app.
    rewrite <- app_assoc. reflexivity. }
  destruct Hk as [-> | ->]; simpl in E; simpl select.
  - unfold SelectorBIC_select, try_except. rewrite E.
    apply (G float_lt BIC_score infinity frame_pure_BIC_score
             BIC_score_trace); [|exact E].
    intros b bn st2 El.
    apply (search_loop_ok float_lt PrimFloat.leb BIC_score float_ltb_irrefl
             float_ltb_trans float_leb_ltb_trans frame_pure_BIC_score) in El.
    destruct El as [_ [[_ H]|(pre & n' & post & Hr & H & _)]];
      [discriminate|].
    inversion H; subst. apply in_range_incl. rewrite Hr. apply in_elt.
  - unfold SelectorDIC_select, try_except. rewrite E.
    apply (G float_gt DIC_score neg_infinity frame_pure_DIC_score
             DIC_score_trace); [|exact E].
    intros b bn st2 El.
    apply (search_loop_ok float_gt (fun a b => PrimFloat.leb b a) DIC_score
             float_gt_irrefl float_gt_trans float_ge_gt_trans
             frame_pure_DIC_score) in El.
    destruct El as [_ [[_ H]|(pre & n' & post & Hr & H & _)]];
      [discriminate|].
    inversion H; subst. apply in_range_incl. rewrite Hr. apply in_elt.
Qed.

End FitCalls.

(** ** The fits of a search that fails *)

Section FailingRuns.

Context {lib : Collaborators}.

(** A search with a candidate that raises stops at the first such
    candidate: the candidates before it were scored, it was fitted, and
    nothing after it was. *)
Lemma search_loop_first_raise (better : float -> float -> bool)
    (score_fn : Z -> M float) :
  (forall n, frame_pure (score_fn n)) ->
  (forall n st,
     trace (snd (score_fn n st)) = trace st ++ base_model_events (self st) n) ->
  forall ns st b0 bn0 n e,
    In n ns -> fst (score_fn n st) = Raise e ->
    exists pre n0 post e0 st',
      ns = pre ++ n0 :: post /\
      fst (score_fn n0 st) = Raise e0 /\
      (forall m, In m pre -> exists s, fst (score_fn m st) = Ok s) /\
      search_loop better score_fn ns b0 bn0 st = (Raise e0, st') /\
      self st' = self st /\
      fit_calls (trace st') =
        fit_calls (trace st) ++ map (fit_call_at (self st)) (pre ++ [n0]).
Proof.
  intros Hp Ht ns.
  induction ns as [|n1 ns IH]; intros st b0 bn0 n e Hin Hr; [destruct Hin|].
  simpl. unfold bind. pose proof (Ht n1 st) as T.
  destruct (score_fn n1 st) as [[s|e1] st1] eqn:Es;
    pose proof (frame_pure_self _ _ _ _ (Hp n1) Es) as S1; simpl in T.
  - assert (Hin' : In n ns).
    { destruct Hin as [<-|H]; [|exact H]. rewrite Es in Hr. discriminate. }
    assert (Hst : forall m, fst (score_fn m st1) = fst (score_fn m st))
      by (intro m; apply frame_pure_fst; [apply Hp|exact S1]).
    rewrite <- Hst in Hr.
    assert (H : exists pre n0 post e0 st',
               ns = pre ++ n0 :: post /\
               fst (score_fn n0 st1) = Raise e0 /\
               (forall m, In m pre -> exists s0, fst (score_fn m st1) = Ok s0) /\
               (if better s b0
                then search_loop better score_fn ns s (Some n1) st1
                else search_loop better score_fn ns b0 bn0 st1)
               = (Raise e0, st') /\
               self st' = self st1 /\
               fit_calls (trace st') =
                 fit_calls (trace st1) ++
                 map (fit_call_at (self st1)) (pre ++ [n0]))
      by (destruct (better s b0); eapply IH; eauto).
    destruct H as (pre & n0 & post & e0 & st' & -> & Hr0 & Hpre & El & S' & F).
    exists (n1 :: pre), n0, post, e0, st'.
    rewrite Hst in Hr0. rewrite S1 in S', F.
    split; [reflexivity|]. split; [exact Hr0|]. split.
    + intros m [<-|Hm].
      * exists s. rewrite Es. reflexivity.
      * destruct (Hpre m Hm) as (s0 & Hs0). rewrite Hst in Hs0. eauto.
    + split; [destruct (better s b0); exact El|]. split; [exact S'|].
      rewrite F, T, fit_calls_app, fit_calls_base_model_events.
      simpl. rewrite <- app_assoc. reflexivity.
  - exists [], n1, ns, e1, st1.
    split; [reflexivity|]. split; [rewrite Es; reflexivity|].
    split; [intros m []|]. split; [reflexivity|]. split; [exact S1|].
    rewrite T, fit_calls_app, fit_calls_base_model_events. reflexivity.
Qed.

(** The same for a search over the range, with [select]'s handler run
    after it. *)
Lemma failing_select_run (better : float -> float -> bool)
    (score_fn : Z -> M float) (init : float) (st : State) (n : Z) (e : exn) :
  (forall n, frame_pure (score_fn n)) ->
  (forall n st,
     trace (snd (score_fn n st)) = trace st ++ base_model_events (self st) n) ->
  min_n_components (self st) <= n <= max_n_components (self st) ->
  fst (score_fn n st) = Raise e ->
  exists st',
    try_except
      (s <- get_self ;;
       ' (_, best_n) <- search_loop better score_fn
             (range_incl (min_n_components s) (max_n_components s))
             init None ;;
       n <- read_local best_n ;;
       base_model n)
      fallback st
    = (Ok (fit_outcome (self st) (n_constant (self st))), st') /\
    self st' = self st /\
    exists pre n0 post,
      range_incl (min_n_components (self st)) (max_n_components (self st))
        = pre ++ n0 :: post /\
      n0 <= n /\
      (exists e0, fst (score_fn n0 st) = Raise e0) /\
      (forall m, In m pre -> exists s, fst (score_fn m st) = Ok s) /\
      fit_calls (trace st') =
        fit_calls (trace st) ++
        map (fit_call_at (self st)) (pre ++ [n0; n_constant (self st)]).
Proof.
  intros Hp Ht Hn Hr. apply in_range_incl in Hn.
  destruct (search_loop_first_raise better score_fn Hp Ht _ st init None n e
              Hn Hr)
    as (pre & n0 & post & e0 & st2 & Hs & Hr0 & Hpre & El & S2 & F).
  unfold try_except, bind at 1. unfold get_self at 1. unfold bind at 1.
  rewrite El, fallback_run, S2. eexists. split; [reflexivity|].
  split; [reflexivity|].
  exists pre, n0, post. split; [exact Hs|]. split.
  - rewrite Hs in Hn. apply in_app_or in Hn.
    destruct Hn as [Hn|[->|Hn]]; [|lia|].
    + destruct (Hpre n Hn) as (s & Hs'). rewrite Hs' in Hr. discriminate.
    + pose proof (sorted_range_incl (min_n_components (self st))
                    (max_n_components (self st))) as Hsorted.
      rewrite Hs in Hsorted.
      pose proof (sorted_split_after pre n0 post Hsorted n Hn). lia.
  - split; [eauto|]. split; [exact Hpre|]. simpl.
    rewrite fit_calls_app, fit_calls_base_model_events, F.
    rewrite !map_app, <- !app_assoc. reflexivity.
Qed.

(** C3 (amended). A candidate of the range whose fit fails or whose scoring
    throws is not skipped.  The first candidate at which the search raises,
    at or before it, ends the search: the fitting service was called for
    the candidates up to and including that one, each of the earlier ones
    having a score, then once at [n_constant], and for no later candidate;
    [SelectorBIC.select] returns the fit at [n_constant] states on the
    selector's data and leaves the selector object unchanged. *)
Theorem SelectorBIC_failed_candidate_falls_back (st : State) (n : Z) :
  min_n_components (self st) <= n <= max_n_components (self st) ->
  candidate_fails (self st) n ->
  exists st',
    SelectorBIC_select st =
      (Ok (fit_outcome (self st) (n_constant (self st))), st') /\
    self st' = self st /\
    exists pre n0 post,
      range_incl (min_n_components (self st)) (max_n_components (self st))
        = pre ++ n0 :: post /\
      n0 <= n /\
      (exists e0, fst (BIC_score n0 st) = Raise e0) /\
      (forall m, In m pre -> exists bic, fst (BIC_score m st) = Ok bic) /\
      fit_calls (trace st') =
        fit_calls (trace st) ++
        map (fit_call_at (self st)) (pre ++ [n0; n_constant (self st)]).
Proof.
  intros Hn Hf.
  destruct (BIC_score_fails (self st) n st eq_refl Hf) as (e & He).
  exact (failing_select_run float_lt BIC_score infinity st n e
           frame_pure_BIC_score BIC_score_trace Hn He).
Qed.

(** X5. A candidate of the range whose fit fails, or whose model cannot
    score the word or one of the other words, is not skipped by
    [SelectorDIC.select].  The first candidate at which the search raises,
    at or before it, ends the search: the fitting service was called for
    the candidates up to and including that one, then once at
    [n_constant], and for no later candidate; the fit at [n_constant] is
    returned and the selector object is left unchanged. *)
Theorem SelectorDIC_failed_candidate_falls_back (st : State) (n : Z) :
  min_n_components (self st) <= n <= max_n_components (self st) ->
  DIC_candidate_fails (self st) n ->
  exists st',
    SelectorDIC_select st =
      (Ok (fit_outcome (self st) (n_constant (self st))), st') /\
    self st' = self st /\
    exists pre n0 post,
      range_incl (min_n_components (self st)) (max_n_components (self st))
        = pre ++ n0 :: post /\
      n0 <= n /\
      (exists e0, fst (DIC_score n0 st) = Raise e0) /\
      (forall m, In m pre -> exists dic, fst (DIC_score m st) = Ok dic) /\
      fit_calls (trace st') =
        fit_calls (trace st) ++
        map (fit_call_at (self st)) (pre ++ [n0; n_constant (self st)]).
Proof.
  intros Hn Hf.
  destruct (DIC_score_fails n st Hf) as (e & He).
  exact (failing_select_run float_gt DIC_score neg_infinity st n e
           frame_pure_DIC_score DIC_score_trace Hn He).
Qed.

End FailingRuns.

(** With the two-state fit failing, the search over 2..4 stops at 2: the
    only fits are the failed one at two states and the fallback at three;
    nothing is fitted at four states. *)
Example SelectorBIC_two_fails_fit_calls :
  fit_calls (trace (snd (SelectorBIC_select (lib := lib_two_fails) fish_state)))
  = map (fit_call_at fish_selector) [2; 3].
Proof. vm_compute. reflexivity. Qed.

Lemma SelectorBIC_failed_candidate_falls_back_witness :
  exists st',
    SelectorBIC_select (lib := lib_two_fails) fish_state =
      (Ok (Some (mkToy 3 (X fish_selector) (lengths fish_selector))), st') /\
    self st' = fish_selector /\
    exists pre n0 post,
      range_incl 2 4 = pre ++ n0 :: post /\
      n0 <= 2 /\
      (exists e0,
         fst (BIC_score (lib := lib_two_fails) n0 fish_state) = Raise e0) /\
      (forall m, In m pre ->
         exists bic,
           fst (BIC_score (lib := lib_two_fails) m fish_state) = Ok bic) /\
      fit_calls (trace st') = map (fit_call_at fish_selector) (pre ++ [n0; 3]).
Proof.
  apply (SelectorBIC_failed_candidate_falls_back
           (lib := lib_two_fails) fish_state 2).
  - simpl. lia.
  - left. eexists. vm_compute. reflexivity.
Defined.

Lemma SelectorDIC_failed_candidate_falls_back_witness :
  exists st',
    SelectorDIC_select (lib := lib_two_fails) fish_state =
      (Ok (Some (mkToy 3 (X fish_selector) (lengths fish_selector))), st') /\
    self st' = fish_selector /\
    exists pre n0 post,
      range_incl 2 4 = pre ++ n0 :: post /\
      n0 <= 2 /\
      (exists e0,
         fst (DIC_score (lib := lib_two_fails) n0 fish_state) = Raise e0) /\
      (forall m, In m pre ->
         exists dic,
           fst (DIC_score (lib := lib_two_fails) m fish_state) = Ok dic) /\
      fit_calls (trace st') = map (fit_call_at fish_selector) (pre ++ [n0; 3]).
Proof.
  apply (SelectorDIC_failed_candidate_falls_back
           (lib := lib_two_fails) fish_state 2).
  - simpl. lia.
  - left. eexists. vm_compute. reflexivity.
Defined.

(** ** More on the recognizer *)

Section RecognizerFacts.

Context {lib : Collaborators}.

(** X7. Every guess of [recognize] is either the empty string or a word of
    the model mapping whose model scored the item above negative infinity:
    a word whose score is nan or negative infinity is never guessed, and
    neither is a word outside the mapping. *)
Theorem recognize_guess_is_scored_word (models : dict Model)
    (items : list (Z * (matrix * list nat))) (i : nat) (g : string) :
  nth_error (snd (recognize models items)) i = Some g ->
  g = EmptyString \/
  exists id x ls m,
    nth_error items i = Some (id, (x, ls)) /\
    In (g, m) models /\
    float_gt (cell_score m x ls) neg_infinity = true.
Proof.
  rewrite recognize_spec. simpl. rewrite nth_error_map.
  destruct (nth_error items i) as [[id [x ls]]|] eqn:Hi; [|discriminate].
  simpl. intros H. inversion H; subst g. unfold guess_of. simpl.
  destruct (recognize_row_guess x ls models neg_infinity [] EmptyString)
    as (b & _ & [[_ Hg]|(pre & w & m & post & Hm & Hg & Hb & Hgt & _)]).
  - left. exact Hg.
  - right. exists id, x, ls, m. rewrite Hg. split; [reflexivity|].
    split; [rewrite Hm; apply in_elt|]. rewrite <- Hb. exact Hgt.
Qed.

(** X8. [recognize] treats the test items one by one: the rows and guesses
    of a test set put together from two parts are those of the first part
    followed by those of the second. *)
Theorem recognize_app (models : dict Model)
    (items1 items2 : list (Z * (matrix * list nat))) :
  recognize models (items1 ++ items2) =
  (fst (recognize models items1) ++ fst (recognize models items2),
   snd (recognize models items1) ++ snd (recognize models items2)).
Proof. rewrite !recognize_spec. simpl. rewrite !map_app. reflexivity. Qed.

End RecognizerFacts.

(** ** What cross-validation chooses *)

Section SearchLoopValued.

Context {lib : Collaborators}.

Variables (better better_eq : float -> float -> bool).
Variable score_fn : Z -> M float.
Variable value : Selector -> Z -> result float.

Hypothesis better_irrefl : forall a, better a a = false.
Hypothesis better_trans :
  forall a b c, better a b = true -> better b c = true -> better a c = true.
Hypothesis better_eq_trans :
  forall a b c, better_eq a b = true -> better b c = true -> better a c = true.
Hypothesis score_value : forall n st, fst (score_fn n st) = value (self st) n.
Hypothesis value_kept :
  forall n st m, value (self (snd (score_fn n st))) m = value (self st) m.

(** The running best of a completed search, for a scoring method that may
    change the selector but not the scores. *)
Lemma search_loop_ok_valued (ns : list Z) :
  forall st b0 bn0 b bn st',
    search_loop better score_fn ns b0 bn0 st = (Ok (b, bn), st') ->
    (forall m, In m ns ->
       exists sm, value (self st) m = Ok sm /\ better sm b = false) /\
    ((b = b0 /\ bn = bn0) \/
     exists pre n post,
       ns = pre ++ n :: post /\ bn = Some n /\
       value (self st) n = Ok b /\ better b b0 = true /\
       forall m, In m pre ->
         exists sm, value (self st) m = Ok sm /\ better_eq sm b = false).
Proof.
  induction ns as [|n ns IH]; intros st b0 bn0 b bn st' E; simpl in E.
  - inversion E; subst. split; [intros m []|left; auto].
  - unfold bind in E.
    pose proof (score_value n st) as Hn.
    pose proof (value_kept n st) as Hst.
    destruct (score_fn n st) as [[s|e] st1]; [|discriminate].
    simpl in Hn, Hst. symmetry in Hn.
    destruct (better s b0) eqn:Eb; apply IH in E; destruct E as [A B].
    + assert (Hsb : better s b = false /\ (b = s \/ better b s = true)).
      { destruct B as [[-> _]|(pre & n' & post & _ & _ & _ & Hb & _)].
        - split; [apply better_irrefl|auto].
        - split; [|auto]. destruct (better s b) eqn:C; [|reflexivity].
          rewrite <- (better_irrefl s). symmetry. eauto. }
      destruct Hsb as [Hsb Hbs]. split.
      * intros m [<-|Hm]; [eauto|].
        destruct (A m Hm) as (sm & Hsm & Hlt). rewrite Hst in Hsm. eauto.
      * right.
        destruct B as [[-> ->]|(pre & n' & post & -> & -> & Hn' & Hb & Hpre)].
        -- exists [], n, ns. repeat split; auto. intros m [].
        -- exists (n :: pre), n', post. rewrite Hst in Hn'.
           repeat split; eauto.
           intros m [<-|Hm].
           ++ exists s. split; [assumption|].
              destruct (better_eq s b) eqn:C; [|reflexivity].
              rewrite <- (better_irrefl s). symmetry. eauto.
           ++ destruct (Hpre m Hm) as (sm & Hsm & Hle).
              rewrite Hst in Hsm. eauto.
    + split.
      * intros m [<-|Hm].
        -- exists s. split; [assumption|].
           destruct B as [[-> _]|(pre & n' & post & _ & _ & _ & Hb & _)];
             [assumption|].
           destruct (better s b) eqn:C; [|reflexivity].
           rewrite <- Eb. symmetry. eauto.
        -- destruct (A m Hm) as (sm & Hsm & Hlt). rewrite Hst in Hsm. eauto.
      * destruct B as [[-> ->]|(pre & n' & post & -> & -> & Hn' & Hb & Hpre)];
          [left; auto|right].
        exists (n :: pre), n', post. rewrite Hst in Hn'.
        repeat split; eauto.
        intros m [<-|Hm].
        -- exists s. split; [assumption|].
           destruct (better_eq s b) eqn:C; [|reflexivity].
           rewrite <- Eb. symmetry. eauto.
        -- destruct (Hpre m Hm) as (sm & Hsm & Hle).
           rewrite Hst in Hsm. eauto.
Qed.

End SearchLoopValued.

Section CrossValidationChoice.

Context {lib : Collaborators}.

Lemma CV_folds_value (n : Z) (folds : list (list nat * list nat)) :
  forall scores st,
    fst (CV_folds n folds scores st) =
    CV_fold_scores (sequences (self st)) (random_state (self st)) n
      folds scores.
Proof.
  induction folds as [|[tr te] folds IH]; intros scores st; [reflexivity|].
  simpl. unfold bind, get_self, lift, set_X_lengths.
  destruct (combine_sequences tr (sequences (self st))) as [[trX trL]|e];
    [|reflexivity].
  rewrite base_model_run. simpl.
  destruct (combine_sequences te (sequences (self st))) as [[teX teL]|e];
    [|reflexivity].
  unfold fit_outcome. simpl.
  destruct (hmm_fit n (random_state (self st)) trX trL) as [m|e];
    [|reflexivity].
  simpl. destruct (hmm_score m teX teL) as [sc|e]; [|reflexivity].
  rewrite IH. reflexivity.
Qed.

Lemma CV_score_value (n : Z) (st : State) :
  fst (CV_score n st) = CV_value (self st) n.
Proof.
  unfold CV_score, CV_value, bind at 1. unfold get_self at 1.
  unfold bind at 1. unfold lift at 1.
  destruct (kfold_split _) as [folds|e]; [|reflexivity].
  unfold bind. pose proof (CV_folds_value n folds [] st) as H.
  destruct (CV_folds n folds [] st) as [[l|e] st1]; simpl in H;
    rewrite <- H; reflexivity.
Qed.

Lemma CV_value_same_config (s s' : Selector) (n : Z) :
  same_config s s' -> CV_value s' n = CV_value s n.
Proof.
  unfold same_config, CV_value. intros (_ & _ & -> & _ & _ & _ & _ & -> & _).
  reflexivity.
Qed.

Lemma CV_fold_scores_scored (s : Selector) (n : Z)
    (folds : list (list nat * list nat)) :
  forall acc l,
    CV_fold_scores (sequences s) (random_state s) n folds acc = Ok l ->
    exists more, l = acc ++ more /\ Forall2 (fold_scored s n) folds more.
Proof.
  induction folds as [|[tr te] folds IH]; intros acc l E; simpl in E.
  - inversion E; subst. exists []. rewrite app_nil_r. split; constructor.
  - destruct (combine_sequences tr (sequences s)) as [[trX trL]|e] eqn:Etr;
      [|discriminate].
    destruct (combine_sequences te (sequences s)) as [[teX teL]|e] eqn:Ete;
      [|discriminate].
    destruct (hmm_fit n (random_state s) trX trL) as [m|e] eqn:Ef;
      [|discriminate].
    destruct (hmm_score m teX teL) as [sc|e] eqn:Es; [|discriminate].
    apply IH in E. destruct E as (more & -> & F).
    exists (sc :: more). rewrite <- app_assoc. split; [reflexivity|].
    constructor; [|exact F].
    exists trX, trL, m, teX, teL. auto.
Qed.

Lemma CV_value_is (s : Selector) (n : Z) (cv : float) :
  CV_value s n = Ok cv -> CV_is s n cv.
Proof.
  unfold CV_value, CV_is.
  destruct (kfold_split _) as [folds|e]; [|discriminate].
  destruct (CV_fold_scores _ _ _ _ _) as [l|e] eqn:E; [|discriminate].
  apply CV_fold_scores_scored in E. destruct E as (more & -> & F).
  intros H. inversion H. exists folds, more. auto.
Qed.

(** X9. When the search of [SelectorCV.select] completes, the state count
    chosen is one of the range whose cross-validation score, the mean over
    the folds of the held-out log-likelihood of a model fitted on the
    training part, no candidate exceeds, and which no smaller candidate
    even equals; the model returned is a fit at that state count on the
    data the selector holds when the search ends. *)
Theorem SelectorCV_select_maximises_CV (st : State)
    (r : option Model) (st1 : State) :
  SelectorCV_search st = (Ok r, st1) ->
  exists n cv,
    min_n_components (self st) <= n <= max_n_components (self st) /\
    CV_is (self st) n cv /\
    SelectorCV_select st = (Ok (fit_outcome (self st1) n), st1) /\
    forall n',
      min_n_components (self st) <= n' <= max_n_components (self st) ->
      exists cv',
        CV_is (self st) n' cv' /\
        PrimFloat.ltb cv cv' = false /\
        (n' < n -> PrimFloat.leb cv cv' = false).
Proof.
  intros E. unfold SelectorCV_select, try_except. rewrite E.
  unfold SelectorCV_search, bind, get_self in E.
  destruct (search_loop _ _ _ _ _ _) as [[[b bn]|e] st2] eqn:El;
    [|discriminate].
  apply (search_loop_ok_valued float_gt (fun a b => PrimFloat.leb b a)
           CV_score CV_value float_gt_irrefl float_gt_trans
           float_ge_gt_trans CV_score_value) in El.
  - destruct El as [A [[_ ->]|(pre & n & post & Hr & -> & Hn & _ & Hpre)]];
      [discriminate|].
    simpl in E. rewrite base_model_run in E. inversion E; subst r st1.
    exists n, b.
    split; [apply in_range_incl; rewrite Hr; apply in_elt|].
    split; [apply CV_value_is; exact Hn|].
    split; [reflexivity|].
    intros n' Hn'. apply in_range_incl in Hn'.
    destruct (A n' Hn') as (cv' & Hs' & Hlt).
    exists cv'. split; [apply CV_value_is; exact Hs'|].
    split; [exact Hlt|]. intros Hlt'.
    assert (Hin : In n' pre).
    { apply (sorted_split_before pre n post); [| |exact Hlt'].
      - rewrite <- Hr. apply sorted_range_incl.
      - rewrite <- Hr. exact Hn'. }
    destruct (Hpre n' Hin) as (cv'' & Hs'' & Hle).
    rewrite Hs' in Hs''. inversion Hs''; subst. exact Hle.
  - intros n st0 m. apply CV_value_same_config.
    apply keeps_config_CV_score.
Qed.

End CrossValidationChoice.

Section CrossValidationResult.

Context {lib : Collaborators}.

(** X11. When the search of [SelectorCV.select] completes and the folds
    end with the fold [(tr, te)], the state count chosen is the first one
    of the range with the greatest cross-validation score, the selector's
    [X] and [lengths] are afterwards the concatenation of the training
    sequences [tr] of that last fold, and the model returned is the fit at
    the chosen state count on exactly that data. *)
Theorem SelectorCV_select_fits_choice_on_last_fold (st : State)
    (r : option Model) (st1 : State)
    (pre : list (list nat * list nat)) (tr te : list nat) :
  SelectorCV_search st = (Ok r, st1) ->
  kfold_split (List.length (sequences (self st))) = Ok (pre ++ [(tr, te)]) ->
  exists n cv x ls,
    min_n_components (self st) <= n <= max_n_components (self st) /\
    CV_is (self st) n cv /\
    (forall n',
       min_n_components (self st) <= n' <= max_n_components (self st) ->
       exists cv',
         CV_is (self st) n' cv' /\
         PrimFloat.ltb cv cv' = false /\
         (n' < n -> PrimFloat.leb cv cv' = false)) /\
    combine_sequences tr (sequences (self st)) = Ok (x, ls) /\
    X (self st1) = x /\ lengths (self st1) = ls /\
    SelectorCV_select st =
      (Ok (match hmm_fit n (random_state (self st)) x ls with
           | Ok m => Some m
           | Raise _ => None
           end), st1).
Proof.
  intros E Hk.
  destruct (SelectorCV_search_fits_last_fold st r st1 pre tr te E Hk)
    as (n0 & x & ls & Hc & HX & HL & _).
  pose proof (keeps_config_SelectorCV_select st) as C.
  unfold SelectorCV_select, try_except in C |- *. rewrite E in C |- *.
  simpl in C.
  unfold SelectorCV_search, bind, get_self in E.
  destruct (search_loop _ _ _ _ _ _) as [[[b bn]|e] st2] eqn:El;
    [|discriminate].
  apply (search_loop_ok_valued float_gt (fun a b => PrimFloat.leb b a)
           CV_score CV_value float_gt_irrefl float_gt_trans
           float_ge_gt_trans CV_score_value) in El.
  - destruct El as [A [[_ ->]|(pre' & n & post & Hr & -> & Hn & _ & Hpre)]];
      [discriminate|].
    simpl in E. rewrite base_model_run in E.
    assert (Er : r = fit_outcome (self st1) n)
      by (inversion E; subst; reflexivity).
    exists n, b, x, ls.
    split; [apply in_range_incl; rewrite Hr; apply in_elt|].
    split; [apply CV_value_is; exact Hn|].
    split.
    + intros n' Hn'. apply in_range_incl in Hn'.
      destruct (A n' Hn') as (cv' & Hs' & Hlt).
      exists cv'. split; [apply CV_value_is; exact Hs'|].
      split; [exact Hlt|]. intros Hlt'.
      assert (Hin : In n' pre').
      { apply (sorted_split_before pre' n post); [| |exact Hlt'].
        - rewrite <- Hr. apply sorted_range_incl.
        - rewrite <- Hr. exact Hn'. }
      destruct (Hpre n' Hin) as (cv'' & Hs'' & Hle).
      rewrite Hs' in Hs''. inversion Hs''; subst. exact Hle.
    + split; [exact Hc|]. split; [exact HX|]. split; [exact HL|].
      rewrite Er. unfold fit_outcome. rewrite HX, HL.
      replace (random_state (self st1)) with (random_state (self st))
        by (unfold same_config in C; symmetry; tauto).
      reflexivity.
  - intros n st0 m. apply CV_value_same_config.
    apply keeps_config_CV_score.
Qed.

End CrossValidationResult.

(** ** What the result does not depend on *)

Lemma agree_ret {A} (a : A) : agree (ret a) (ret a).
Proof. intros st1 st2 H. auto. Qed.

Lemma agree_raise {A} (e : exn) : agree (@raise A e) (raise e).
Proof. intros st1 st2 H. auto. Qed.

Lemma agree_lift {A} (r : result A) : agree (lift r) (lift r).
Proof. intros st1 st2 H. auto. Qed.

Lemma agree_read_local {A} (v : option A) :
  agree (read_local v) (read_local v).
Proof. destruct v; [apply agree_ret|apply agree_raise]. Qed.

Lemma agree_bind {A B} (m1 m2 : M A) (k1 k2 : A -> M B) :
  agree m1 m2 -> (forall a, agree (k1 a) (k2 a)) ->
  agree (bind m1 k1) (bind m2 k2).
Proof.
  intros Hm Hk st1 st2 H. unfold bind. destruct (Hm st1 st2 H) as [R S].
  destruct (m1 st1) as [[a1|e1] st1'], (m2 st2) as [[a2|e2] st2'];
    simpl in *; try discriminate.
  - inversion R; subst. apply Hk. exact S.
  - inversion R; subst. auto.
Qed.

Lemma agree_with_self {A} (k1 k2 : Selector -> M A) :
  (forall s1 s2, same_inputs s1 s2 -> agree (k1 s1) (k2 s2)) ->
  agree (bind get_self k1) (bind get_self k2).
Proof.
  intros Hk st1 st2 H. unfold bind, get_self.
  apply Hk; [apply H|exact H].
Qed.

Lemma agree_try_except {A} (b1 b2 h1 h2 : M A) :
  agree b1 b2 -> agree h1 h2 -> agree (try_except b1 h1) (try_except b2 h2).
Proof.
  intros Hb Hh st1 st2 H. unfold try_except.
  destruct (Hb st1 st2 H) as [R S].
  destruct (b1 st1) as [[a1|e1] st1'], (b2 st2) as [[a2|e2] st2'];
    simpl in *; try discriminate.
  - auto.
  - apply Hh. exact S.
Qed.

Lemma agree_set_X_lengths (x : matrix) (ls : list nat) :
  agree (set_X_lengths x ls) (set_X_lengths x ls).
Proof.
  intros st1 st2 [H T]. unfold same_run, same_inputs in *. simpl.
  intuition.
Qed.

(** Rewrites the fields on which two selectors agree. *)
Ltac same_fields H :=
  let E1 := fresh in let E2 := fresh in let E3 := fresh in
  let E4 := fresh in let E5 := fresh in let E6 := fresh in
  let E7 := fresh in let E8 := fresh in let E9 := fresh in
  destruct H as (E1 & E2 & E3 & E4 & E5 & E6 & E7 & E8 & E9);
  rewrite ?E1, ?E2, ?E3, ?E4, ?E5, ?E6, ?E7, ?E8, ?E9.

Section Independence.

Context {lib : Collaborators}.

Lemma agree_score_of (model : option Model) (x : matrix) (ls : list nat) :
  agree (score_of model x ls) (score_of model x ls).
Proof. destruct model; [apply agree_lift|apply agree_raise]. Qed.

Lemma agree_base_model (n : Z) : agree (base_model n) (base_model n).
Proof.
  intros st1 st2 [H T]. rewrite !base_model_run. simpl.
  unfold same_run. simpl.
  rewrite !fit_calls_app, !fit_calls_base_model_events, T.
  unfold fit_outcome. pose proof H as H'. same_fields H.
  auto.
Qed.

Lemma agree_fallback : agree fallback fallback.
Proof.
  unfold fallback. apply agree_with_self. intros s1 s2 H.
  same_fields H. apply agree_base_model.
Qed.

Lemma agree_SelectorConstant_select :
  agree SelectorConstant_select SelectorConstant_select.
Proof. apply agree_fallback. Qed.

Lemma agree_BIC_score (n : Z) : agree (BIC_score n) (BIC_score n).
Proof.
  unfold BIC_score.
  apply agree_bind; [apply agree_base_model|intro model].
  apply agree_with_self. intros s1 s2 H. same_fields H.
  apply agree_bind; [apply agree_score_of|intro logL].
  apply agree_bind; [apply agree_lift|intro f].
  apply agree_ret.
Qed.

Lemma agree_DIC_loganti (model : option Model) (this : string)
    (items : dict (matrix * list nat)) :
  forall acc,
    agree (DIC_loganti model this items acc)
          (DIC_loganti model this items acc).
Proof.
  induction items as [|[w [sq len]] rest IH]; intros acc; simpl.
  - apply agree_ret.
  - destruct (negb (String.eqb w this)); [|apply IH].
    apply agree_bind; [apply agree_score_of|intro sc; apply IH].
Qed.

Lemma agree_DIC_score (n : Z) : agree (DIC_score n) (DIC_score n).
Proof.
  unfold DIC_score.
  apply agree_bind; [apply agree_base_model|intro model].
  apply agree_with_self. intros s1 s2 H. same_fields H.
  apply agree_bind; [apply agree_score_of|intro logL].
  apply agree_bind; [apply agree_DIC_loganti|intro l].
  apply agree_ret.
Qed.

Lemma agree_CV_folds (n : Z) (folds : list (list nat * list nat)) :
  forall scores,
    agree (CV_folds n folds scores) (CV_folds n folds scores).
Proof.
  induction folds as [|[tr te] folds IH]; intros scores; simpl.
  - apply agree_ret.
  - apply agree_with_self. intros s1 s2 H. same_fields H.
    apply agree_bind; [apply agree_lift|intros [trX trL]].
    apply agree_bind; [apply agree_set_X_lengths|intros _].
    apply agree_bind; [apply agree_base_model|intro model].
    apply agree_bind; [apply agree_lift|intros [teX teL]].
    apply agree_bind; [apply agree_score_of|intro sc].
    apply IH.
Qed.

Lemma agree_CV_score (n : Z) : agree (CV_score n) (CV_score n).
Proof.
  unfold CV_score.
  apply agree_with_self. intros s1 s2 H. same_fields H.
  apply agree_bind; [apply agree_lift|intro folds].
  apply agree_bind; [apply agree_CV_folds|intro scores].
  apply agree_ret.
Qed.

Lemma agree_search_loop (better : float -> float -> bool)
    (score_fn : Z -> M float) :
  (forall n, agree (score_fn n) (score_fn n)) ->
  forall ns b0 bn0,
    agree (search_loop better score_fn ns b0 bn0)
          (search_loop better score_fn ns b0 bn0).
Proof.
  intros Hs ns. induction ns as [|n ns IH]; intros b0 bn0; simpl.
  - apply agree_ret.
  - apply agree_bind; [apply Hs|intro s].
    destruct (better s b0); apply IH.
Qed.

Lemma agree_search_body (better : float -> float -> bool)
    (score_fn : Z -> M float) (init : float) :
  (forall n, agree (score_fn n) (score_fn n)) ->
  agree
    (s <- get_self ;;
     ' (_, best_n) <- search_loop better score_fn
           (range_incl (min_n_components s) (max_n_components s))
           init None ;;
     n <- read_local best_n ;;
     base_model n)
    (s <- get_self ;;
     ' (_, best_n) <- search_loop better score_fn
           (range_incl (min_n_components s) (max_n_components s))
           init None ;;
     n <- read_local best_n ;;
     base_model n).
Proof.
  intros Hs. apply agree_with_self. intros s1 s2 H. same_fields H.
  apply agree_bind; [apply agree_search_loop; exact Hs|intros [b bn]].
  apply agree_bind; [apply agree_read_local|intro n].
  apply agree_base_model.
Qed.

(** X10. The model that [select] returns and the fits it makes do not
    depend on the [verbose] flag, on the [words] mapping or on what was
    printed before: two selector objects that differ only there return the
    same result, after the same calls to the fitting service, and still
    differ only there. *)
Theorem select_ignores_verbose_and_words (k : selector_kind)
    (st1 st2 : State) :
  same_run st1 st2 ->
  fst (select k st1) = fst (select k st2) /\
  same_run (snd (select k st1)) (snd (select k st2)).
Proof.
  revert st1 st2. change (agree (select k) (select k)).
  destruct k; simpl.
  - apply agree_SelectorConstant_select.
  - apply agree_try_except; [|apply agree_fallback].
    apply agree_search_body. apply agree_BIC_score.
  - apply agree_try_except; [|apply agree_fallback].
    apply agree_search_body. apply agree_DIC_score.
  - apply agree_try_except; [|apply agree_fallback].
    apply agree_search_body. apply agree_CV_score.
Qed.

End Independence.

(** ** The further properties on the examples *)

Lemma select_empty_range_witness :
  select (lib := lib_all_fit) CV empty_range_state
  = SelectorConstant_select (lib := lib_all_fit) empty_range_state.
Proof.
  apply (select_empty_range (lib := lib_all_fit) CV empty_range_state).
  simpl. lia.
Defined.

Lemma SelectorCV_select_without_folds_witness :
  SelectorCV_select (lib := lib_all_fit) short_state
  = SelectorConstant_select (lib := lib_all_fit) short_state.
Proof.
  apply (SelectorCV_select_without_folds (lib := lib_all_fit)
           short_state ValueError).
  reflexivity.
Defined.

Lemma SelectorBIC_no_finite_BIC_falls_back_witness :
  exists st',
    SelectorBIC_select (lib := lib_zero_likelihood) fish_state =
      (Ok (Some (mkToy 3 (X fish_selector) (lengths fish_selector))), st') /\
    self st' = fish_selector.
Proof.
  apply (SelectorBIC_no_finite_BIC_falls_back
           (lib := lib_zero_likelihood) fish_state).
  intros n bic Hn (model & logL & f & _ & Hs & Hx & ->).
  simpl in Hn, Hs, Hx. inversion Hs; subst logL. inversion Hx; subst f.
  assert (Hc : n = 2 \/ n = 3 \/ n = 4) by lia.
  destruct Hc as [-> | [-> | ->]]; vm_compute; reflexivity.
Defined.

Lemma SelectorDIC_single_word_falls_back_witness :
  exists st',
    SelectorDIC_select (lib := lib_all_fit) lonely_state =
      (Ok (Some (mkToy 3 (X fish_selector) (lengths fish_selector))), st') /\
    self st' = self lonely_state.
Proof.
  apply (SelectorDIC_single_word_falls_back (lib := lib_all_fit) lonely_state).
  - reflexivity.
  - vm_compute. reflexivity.
Defined.

Lemma adaptive_select_fit_calls_witness :
  exists r st1,
    search (lib := lib_all_fit) BIC fish_state = (Ok r, st1) /\
    exists n,
      2 <= n <= 4 /\
      select (lib := lib_all_fit) BIC fish_state
        = (Ok (fit_outcome (lib := lib_all_fit) fish_selector n), st1) /\
      fit_calls (trace st1) =
        map (fit_call_at fish_selector) (range_incl 2 4 ++ [n]).
Proof.
  do 2 eexists. split.
  - vm_compute. reflexivity.
  - eapply (adaptive_select_fit_calls (lib := lib_all_fit) BIC fish_state).
    + left. reflexivity.
    + reflexivity.
Defined.

Lemma recognize_guess_is_scored_word_witness :
  "FISH"%string = EmptyString \/
  exists id x ls m,
    nth_error example_test_set 0 = Some (id, (x, ls)) /\
    In ("FISH"%string, m) example_models /\
    float_gt (cell_score (lib := lib_all_fit) m x ls) neg_infinity = true.
Proof.
  apply (recognize_guess_is_scored_word (lib := lib_all_fit)
           example_models example_test_set 0 "FISH").
  vm_compute. reflexivity.
Defined.

Lemma SelectorCV_select_maximises_CV_witness :
  exists r st1,
    SelectorCV_search (lib := lib_all_fit) fish_state = (Ok r, st1) /\
    exists n cv,
      2 <= n <= 4 /\
      CV_is (lib := lib_all_fit) fish_selector n cv /\
      SelectorCV_select (lib := lib_all_fit) fish_state
        = (Ok (fit_outcome (lib := lib_all_fit) (self st1) n), st1) /\
      forall n', 2 <= n' <= 4 ->
        exists cv',
          CV_is (lib := lib_all_fit) fish_selector n' cv' /\
          PrimFloat.ltb cv cv' = false /\
          (n' < n -> PrimFloat.leb cv cv' = false).
Proof.
  destruct (SelectorCV_search (lib := lib_all_fit) fish_state)
    as [[r|e] st1] eqn:E.
  - exists r, st1. split; [reflexivity|].
    exact (SelectorCV_select_maximises_CV (lib := lib_all_fit)
             fish_state r st1 E).
  - vm_compute in E. discriminate E.
Defined.

Lemma select_ignores_verbose_and_words_witness :
  fst (select (lib := lib_all_fit) CV fish_state)
    = fst (select (lib := lib_all_fit) CV verbose_fish_state) /\
  same_run (snd (select (lib := lib_all_fit) CV fish_state))
           (snd (select (lib := lib_all_fit) CV verbose_fish_state)).
Proof.
  apply (select_ignores_verbose_and_words (lib := lib_all_fit) CV
           fish_state verbose_fish_state).
  unfold same_run, same_inputs. simpl. repeat split; reflexivity.
Defined.

(** ** Building a selector *)

Lemma dict_get_none {V} (k : string) (d : dict V) :
  dict_get k d = None <-> ~ In k (keys d).
Proof.
  induction d as [|[k' v] d IH]; simpl; [tauto|].
  destruct (String.eqb_spec k k') as [->|Hne].
  - split; [discriminate|]. intros H. exfalso. auto.
  - rewrite IH. split; [intros H [E|E]; [congruence|auto]|tauto].
Qed.

Lemma dict_get_some_in {V} (k : string) (v : V) (d : dict V) :
  dict_get k d = Some v -> In (k, v) d.
Proof.
  induction d as [|[k' v'] d IH]; simpl; [discriminate|].
  destruct (String.eqb_spec k k') as [->|Hne].
  - intros H. inversion H. auto.
  - auto.
Qed.

(** X12. Building a selector fails exactly when the word is missing from
    the sequences mapping or from the concatenated-index mapping (the
    [KeyError] of the constructor); otherwise the selector holds that
    word's entry of each mapping, the two mappings themselves and the
    parameters as given. *)
Theorem init_spec (all_word_sequences : dict (list matrix))
    (all_word_Xlengths : dict (matrix * list nat)) (word : string)
    (n_const min_n max_n seed : Z) (verb : bool) :
  (init all_word_sequences all_word_Xlengths word n_const min_n max_n seed verb
     = None <->
   ~ In word (keys all_word_sequences) \/
   ~ In word (keys all_word_Xlengths)) /\
  (forall s,
     init all_word_sequences all_word_Xlengths word n_const min_n max_n
          seed verb = Some s ->
     In (word, sequences s) all_word_sequences /\
     In (word, (X s, lengths s)) all_word_Xlengths /\
     words s = all_word_sequences /\ hwords s = all_word_Xlengths /\
     this_word s = word /\ n_constant s = n_const /\
     min_n_components s = min_n /\ max_n_components s = max_n /\
     random_state s = seed /\ verbose s = verb).
Proof.
  unfold init. rewrite <- !dict_get_none.
  destruct (dict_get word all_word_sequences) as [seqs|] eqn:Es;
    [|split; [split; auto|discriminate]].
  destruct (dict_get word all_word_Xlengths) as [[x ls]|] eqn:Ex;
    [|split; [split; auto|discriminate]].
  split.
  - split; [discriminate|intros [H|H]; discriminate].
  - intros s H. inversion H; subst s. simpl.
    apply dict_get_some_in in Es, Ex. repeat split; assumption.
Qed.

Lemma SelectorCV_select_fits_choice_on_last_fold_witness :
  exists r st1,
    SelectorCV_search (lib := lib_all_fit) fish_state = (Ok r, st1) /\
    exists n cv x ls,
      2 <= n <= 4 /\
      CV_is (lib := lib_all_fit) fish_selector n cv /\
      (forall n', 2 <= n' <= 4 ->
         exists cv',
           CV_is (lib := lib_all_fit) fish_selector n' cv' /\
           PrimFloat.ltb cv cv' = false /\
           (n' < n -> PrimFloat.leb cv cv' = false)) /\
      combine_sequences [0; 1]%nat fish_sequences = Ok (x, ls) /\
      X (self st1) = x /\ lengths (self st1) = ls /\
      SelectorCV_select (lib := lib_all_fit) fish_state =
        (Ok (match hmm_fit (Collaborators := lib_all_fit) n 14 x ls with
             | Ok m => Some m
             | Raise _ => None
             end), st1).
Proof.
  destruct (SelectorCV_search (lib := lib_all_fit) fish_state)
    as [[r|e] st1] eqn:E.
  - exists r, st1. split; [reflexivity|].
    exact (SelectorCV_select_fits_choice_on_last_fold (lib := lib_all_fit)
             fish_state r st1 [([1; 2], [0]); ([0; 2], [1])]%nat
             [0; 1]%nat [2]%nat E eq_refl).
  - vm_compute in E. discriminate E.
Defined.
